(** * MonitoRSS: feed connections, delivery records and feed status

    A shallow embedding of
    - [services/backend-api/src/features/feed-connections/feed-connections.service.ts]
      (class [FeedConnectionsService]),
    - [services/feed-handler/src/delivery-record/delivery-record.service.ts]
      (class [DeliveryRecordService]),
    - the behaviour of [FeedsService] that [feeds.service.spec.ts] and
      [feeds.controller.ts] exercise,
    followed by the properties that the specification states about them. *)

From Stdlib Require Import ZArith.
From stdpp Require Import gmap strings list fin_maps.

Local Open Scope string_scope.
Local Open Scope list_scope.

(** ** JavaScript values

    Patches and stored sub-documents carry untyped payloads (filter
    expressions, embeds, content).  Objects are association lists read by
    their last binding, which is what successive property writes give. *)
Module Js.

#[local] Unset Elimination Schemes.
Inductive Value : Type :=
| Undefined
| Null
| Bool (b : bool)
| Num (n : Z)
| Str (s : string)
| Arr (items : list Value)
| Obj (props : list (string * Value)).
#[local] Set Elimination Schemes.

(** [ToBoolean]: what [v && e] and [if (v)] test. *)
Definition truthy (v : Value) : bool :=
  match v with
  | Undefined | Null => false
  | Bool b => b
  | Num n => negb (n =? 0)%Z
  | Str s => negb (String.eqb s "")
  | Arr _ | Obj _ => true
  end.

(** The entries of an object, looked up by key: the last binding wins. *)
Fixpoint lookup_entry (k : string) (props : list (string * Value)) : option Value :=
  match props with
  | [] => None
  | (k', v) :: rest =>
      match lookup_entry k rest with
      | Some v' => Some v'
      | None => if String.eqb k' k then Some v else None
      end
  end.

(** Property access [v.k]; a missing property reads as [undefined]. *)
Definition get (k : string) (v : Value) : Value :=
  match v with
  | Obj props => default Undefined (lookup_entry k props)
  | _ => Undefined
  end.

(** Does a string start with a given prefix?  The remainder if so. *)
Fixpoint strip_prefix (pre s : string) : option string :=
  match pre with
  | EmptyString => Some s
  | String a pre' =>
      match s with
      | EmptyString => None
      | String b s' => if Ascii.eqb a b then strip_prefix pre' s' else None
      end
  end.

End Js.

(** ** Feed connections: data model *)
Module FeedConnections.

Import Js.

(** A MongoDB [ObjectId], compared through its hexadecimal rendering
    ([connection.id.equals(connectionId)]). *)
Definition ObjectId : Type := string.

(** Everything the service may [throw], and everything its collaborators
    may reject with. *)
Inductive Exception : Type :=
| DiscordAPIError (statusCode : Z)
| DiscordChannelNotOwnedException (message : string)
| DiscordWebhookInvalidTypeException (message : string)
| DiscordWebhookMissingUserPermException (message : string)
| DiscordWebhookNonexistentException (message : string)
| DiscordWebhookNotOwnedException (message : string)
| DiscordChannelPermissionsException
| MissingDiscordChannelException
| Error (message : string)
| OtherFailure (description : string).

Definition HttpStatus_NOT_FOUND : Z := 404.
Definition HttpStatus_FORBIDDEN : Z := 403.

(** What the Discord API returns for a channel and for a webhook; only the
    fields the service reads. *)
Record DiscordGuildChannel : Type := {
  channel_id : string;
  channel_guild_id : string
}.

Record DiscordWebhook : Type := {
  webhook_id : string;
  webhook_guild_id : string;
  webhook_token : option string
}.

(** [DiscordChannelConnection]: [details] is the stored sub-document, keyed
    by field name; [filters] is optional. *)
Record DiscordChannelConnection : Type := {
  id : ObjectId;
  name : string;
  filters : option Value;
  details : gmap string Value
}.

Record WebhookDetails : Type := {
  webhook_iconUrl : option string;
  webhook_ref_id : string;
  webhook_name : option string;
  token : option string
}.

Record DiscordWebhookConnection : Type := {
  webhook_connection_id : ObjectId;
  webhook_connection_name : string;
  webhook_connection_embeds : list Value;
  webhook : WebhookDetails
}.

Record FeedConnections : Type := {
  discordChannels : list DiscordChannelConnection;
  discordWebhooks : list DiscordWebhookConnection
}.

(** A [Feed] document; its [_id] is the key under which the collection
    holds it. *)
Record Feed : Type := {
  guild : string;
  connections : FeedConnections
}.

(** The collaborators injected into [FeedConnectionsService] and the one
    imported constant, none of which is defined in the service file:
    [feedsService.canUseChannel({channelId, userAccessToken})],
    [discordWebhooksService.getWebhook(id)],
    [discordWebhooksService.canBeUsedByBot(webhook)],
    [discordAuthService.userManagesGuild(accessToken, guildId)] and
    [FeedConnectionType.DiscordChannel].  A collaborator that returns a
    promise may reject, hence the sums. *)
Record Env : Type := {
  canUseChannel : string -> string -> Exception + DiscordGuildChannel;
  getWebhook : string -> Exception + option DiscordWebhook;
  canBeUsedByBot : DiscordWebhook -> bool;
  userManagesGuild : string -> string -> Exception + bool;
  FeedConnectionType_DiscordChannel : string
}.

(** Calls that leave the service, in the order they are issued. *)
Inductive Call : Type :=
| CallCanUseChannel (channelId userAccessToken : string)
| CallGetWebhook (webhookId : string)
| CallCanBeUsedByBot (w : DiscordWebhook)
| CallUserManagesGuild (accessToken guildId : string)
| CallFindOneAndUpdate (feedId : string).

(** The world a request runs in: the [Feed] collection keyed by [_id], and
    the log of outgoing calls. *)
Record World : Type := {
  feeds : gmap string Feed;
  calls : list Call
}.

(** ** A state-and-exception monad for [async] methods *)
Definition M (A : Type) : Type := World -> (Exception + A) * World.

Definition ret {A} (a : A) : M A := fun w => (inr a, w).

Definition throw {A} (e : Exception) : M A := fun w => (inl e, w).

Definition bind {A B} (m : M A) (k : A -> M B) : M B :=
  fun w =>
    match m w with
    | (inl e, w') => (inl e, w')
    | (inr a, w') => k a w'
    end.

Definition try_catch {A} (m : M A) (handler : Exception -> M A) : M A :=
  fun w =>
    match m w with
    | (inl e, w') => handler e w'
    | (inr a, w') => (inr a, w')
    end.

Definition log (c : Call) : M unit :=
  fun w => (inr tt, {| feeds := feeds w; calls := (calls w ++ [c])%list |}).

Definition settle {A} (r : Exception + A) : M A :=
  fun w => (r, w).

Declare Scope async_scope.
Delimit Scope async_scope with async.
Notation "'let*' x ':=' m 'in' k" := (bind m (fun x => k))
  (at level 10, x name, m at level 99, k at level 200) : async_scope.
Notation "m ';;' k" := (bind m (fun _ => k))
  (at level 100, k at level 200, right associativity) : async_scope.
Local Open Scope async_scope.

(** An awaited call to a collaborator: logged, then resolved or rejected. *)
Definition await {A} (c : Call) (r : Exception + A) : M A :=
  (log c ;; settle r).

(** The world after some more calls were logged and nothing was stored. *)
Definition logged (w : World) (cs : list Call) : World :=
  {| feeds := feeds w; calls := (calls w ++ cs)%list |}.

(** ** The [Feed] collection: [feedModel.findOneAndUpdate] *)

Definition has_id (connectionId : ObjectId) (c : DiscordChannelConnection) : bool :=
  String.eqb (id c) connectionId.

Definition webhook_has_id (connectionId : ObjectId) (c : DiscordWebhookConnection) : bool :=
  String.eqb (webhook_connection_id c) connectionId.

Definition with_discordChannels (feed : Feed) (l : list DiscordChannelConnection) : Feed :=
  {| guild := guild feed;
     connections := {| discordChannels := l;
                       discordWebhooks := discordWebhooks (connections feed) |} |}.

Definition with_discordWebhooks (feed : Feed) (l : list DiscordWebhookConnection) : Feed :=
  {| guild := guild feed;
     connections := {| discordChannels := discordChannels (connections feed);
                       discordWebhooks := l |} |}.

Definition store (feedId : string) (feed : Feed) (w : World) : World :=
  {| feeds := <[feedId := feed]> (feeds w); calls := calls w |}.

(** [findOneAndUpdate({_id: feedId}, {$push: {"connections.discordChannels": c}}, {new: true})] *)
Definition findOneAndUpdate_pushDiscordChannel
    (feedId : string) (c : DiscordChannelConnection) : M (option Feed) :=
  (log (CallFindOneAndUpdate feedId) ;;
   fun w =>
     match feeds w !! feedId with
     | None => (inr None, w)
     | Some feed =>
         let updated :=
           with_discordChannels feed (discordChannels (connections feed) ++ [c]) in
         (inr (Some updated), store feedId updated w)
     end).

(** [findOneAndUpdate({_id: feedId}, {$push: {"connections.discordWebhooks": c}}, {new: true})] *)
Definition findOneAndUpdate_pushDiscordWebhook
    (feedId : string) (c : DiscordWebhookConnection) : M (option Feed) :=
  (log (CallFindOneAndUpdate feedId) ;;
   fun w =>
     match feeds w !! feedId with
     | None => (inr None, w)
     | Some feed =>
         let updated :=
           with_discordWebhooks feed (discordWebhooks (connections feed) ++ [c]) in
         (inr (Some updated), store feedId updated w)
     end).

(** The fields of a channel connection that a positional path
    ["connections.discordChannels.$.<field>"] can name. *)
Inductive Field : Type :=
| FieldDetails (key : string)
| FieldFilters
| FieldName.

Definition positional : string := "connections.discordChannels.$.".

Definition positional_field (path : string) : option Field :=
  match strip_prefix positional path with
  | None => None
  | Some field =>
      match strip_prefix "details." field with
      | Some key => Some (FieldDetails key)
      | None =>
          if String.eqb field "filters" then Some FieldFilters
          else if String.eqb field "name" then Some FieldName
          else None
      end
  end.

(** One entry of a [$set] document applied to the matched connection.  A
    [details] key is taken whole, as the field names of [details] are, and
    its value is stored as the document gives it. *)
Definition set_field (c : DiscordChannelConnection) (entry : string * Value)
    : DiscordChannelConnection :=
  match positional_field entry.1 with
  | Some (FieldDetails key) =>
      {| id := id c; name := name c; filters := filters c;
         details := <[key := entry.2]> (details c) |}
  | Some FieldFilters =>
      {| id := id c; name := name c; filters := Some entry.2;
         details := details c |}
  | Some FieldName =>
      match entry.2 with
      | Str s => {| id := id c; name := s; filters := filters c;
                    details := details c |}
      | _ => c
      end
  | None => c
  end.

Definition apply_set (doc : list (string * Value)) (c : DiscordChannelConnection)
    : DiscordChannelConnection :=
  fold_left set_field doc c.

(** The positional operator [$] designates the first array element that
    satisfies the query. *)
Fixpoint update_first {A} (p : A -> bool) (f : A -> A) (l : list A) : list A :=
  match l with
  | [] => []
  | x :: rest => if p x then f x :: rest else x :: update_first p f rest
  end.

(** The document that the query
    [{_id: feedId, "connections.discordChannels.id": connectionId}] selects. *)
Definition selected (feedId : string) (connectionId : ObjectId) (w : World)
    : option Feed :=
  match feeds w !! feedId with
  | Some feed =>
      if existsb (has_id connectionId) (discordChannels (connections feed))
      then Some feed else None
  | None => None
  end.

(** [findOneAndUpdate({_id: feedId, "connections.discordChannels.id": connectionId},
                      {$set: doc}, {new: true})] *)
Definition findOneAndUpdate_set
    (feedId : string) (connectionId : ObjectId) (doc : list (string * Value))
    : M (option Feed) :=
  (log (CallFindOneAndUpdate feedId) ;;
   fun w =>
     match selected feedId connectionId w with
     | None => (inr None, w)
     | Some feed =>
         let updated :=
           with_discordChannels feed
             (update_first (has_id connectionId) (apply_set doc)
                (discordChannels (connections feed))) in
         (inr (Some updated), store feedId updated w)
     end).

(** ** [FeedConnectionsService] *)

Definition channelNotOwned (channelId guildId : string) : Exception :=
  DiscordChannelNotOwnedException
    ("Discord channel " +:+ channelId +:+ " is not owned by guild " +:+ guildId).

Definition assertDiscordChannelCanBeUsed
    (env : Env) (accessToken channelId guildId : string) : M DiscordGuildChannel :=
  try_catch
    (let* channel :=
       await (CallCanUseChannel channelId accessToken)
             (canUseChannel env channelId accessToken) in
     if negb (String.eqb (channel_guild_id channel) guildId)
     then throw (channelNotOwned channelId guildId)
     else ret channel)
    (fun err =>
       match err with
       | DiscordAPIError statusCode =>
           if (statusCode =? HttpStatus_NOT_FOUND)%Z
           then throw MissingDiscordChannelException
           else if (statusCode =? HttpStatus_FORBIDDEN)%Z
           then throw DiscordChannelPermissionsException
           else throw err
       | _ => throw err
       end).

Definition notCreated : Exception :=
  Error "Connection was not successfuly created. Check insertion statement and schemas are correct.".

Definition notUpdated : Exception :=
  Error "Connection was not successfuly updated. Check insertion statement and schemas are correct.".

(** The record pushed by [createDiscordChannelConnection]. *)
Definition newDiscordChannelConnection
    (env : Env) (connectionId : ObjectId) (name channelId : string)
    : DiscordChannelConnection :=
  {| id := connectionId;
     name := name;
     filters := None;
     details :=
       {[ "type" := Str (FeedConnectionType_DiscordChannel env);
          "channel" := Obj [("id", Str channelId)];
          "embeds" := Arr [] ]} |}.

(** [connectionId] is the value of [new Types.ObjectId()]. *)
Definition createDiscordChannelConnection
    (env : Env) (connectionId : ObjectId)
    (feedId name channelId userAccessToken guildId : string)
    : M DiscordChannelConnection :=
  (assertDiscordChannelCanBeUsed env userAccessToken channelId guildId ;;
   let* updated :=
     findOneAndUpdate_pushDiscordChannel feedId
       (newDiscordChannelConnection env connectionId name channelId) in
   let createdConnection :=
     feed ← updated;
     List.find (has_id connectionId) (discordChannels (connections feed)) in
   match createdConnection with
   | None => throw notCreated
   | Some createdConnection => ret createdConnection
   end).

(** [Partial<DiscordChannelConnection["details"]>]: the [channel] key is
    typed [{id: string}]; the other keys carry untyped payloads.  The keys
    are field names of [details], so none of them is a dotted path into a
    nested field. *)
Record ChannelRef : Type := { ref_id : string }.

Definition ChannelRef_value (c : ChannelRef) : Value :=
  Obj [("id", Str (ref_id c))].

(** What a patch binds its [channel] key to.  The key is optional, so next
    to an object it may be bound to [undefined]; a request body can also
    carry [null]. *)
Inductive ChannelPatch : Type :=
| ChannelUndefined
| ChannelNull
| ChannelObject (c : ChannelRef).

Definition ChannelPatch_value (p : ChannelPatch) : Value :=
  match p with
  | ChannelUndefined => Undefined
  | ChannelNull => Null
  | ChannelObject c => ChannelRef_value c
  end.

(** [channelKey] is [None] when the patch has no [channel] property of its
    own. *)
Record DetailsPatch : Type := {
  channelKey : option ChannelPatch;
  otherKeys : list (string * Value)
}.

(** [details.channel] where [if (details.channel)] takes it for true: an
    object is truthy, [undefined] and [null] are not, and a property that
    is not there reads as [undefined]. *)
Definition channel (d : DetailsPatch) : option ChannelRef :=
  match channelKey d with
  | Some (ChannelObject c) => Some c
  | Some ChannelUndefined | Some ChannelNull | None => None
  end.

(** [Object.entries]: an object binds a key once, and [channelKey] is the
    binding of [channel]; a key bound to a falsy value is an entry like any
    other. *)
Definition Object_entries (d : DetailsPatch) : list (string * Value) :=
  (match channelKey d with
   | Some p => [("channel", ChannelPatch_value p)]
   | None => []
   end
   ++ List.filter (fun entry => negb (String.eqb entry.1 "channel")) (otherKeys d))%list.

Module Updates.
Record t : Type := {
  filters : option Value;
  name : option string;
  details : option DetailsPatch
}.
End Updates.

Record UpdateDiscordChannelConnectionInput : Type := {
  accessToken : string;
  updates : Updates.t;
  guildId : string
}.

(** [Object.entries(updates.details || {})] *)
Definition patch_entries (updates : Updates.t) : list (string * Value) :=
  match Updates.details updates with
  | Some d => Object_entries d
  | None => []
  end.

(** The [$set] entry that the reducer of [setRecordDetails] adds for one
    entry of the patch. *)
Definition details_path (entry : string * Value) : string * Value :=
  (positional +:+ "details." +:+ entry.1, entry.2).

(** [Object.entries(updates.details || {}).reduce(...)] *)
Definition setRecordDetails (updates : Updates.t) : list (string * Value) :=
  fold_left
    (fun acc entry =>
       (acc ++ [(positional +:+ "details." +:+ entry.1, entry.2)])%list)
    (patch_entries updates)
    [].

(** The [$set] document of [updateQuery]. *)
Definition updateQuery_set (updates : Updates.t) : list (string * Value) :=
  (setRecordDetails updates
   ++ match Updates.filters updates with
      | Some f => if truthy f then [(positional +:+ "filters", f)] else []
      | None => []
      end
   ++ match Updates.name updates with
      | Some n => if truthy (Str n) then [(positional +:+ "name", Str n)] else []
      | None => []
      end)%list.

Definition updateDiscordChannelConnection
    (env : Env) (feedId : string) (connectionId : ObjectId)
    (input : UpdateDiscordChannelConnectionInput)
    : M DiscordChannelConnection :=
  (match Updates.details (updates input) ≫= channel with
   | Some c =>
       assertDiscordChannelCanBeUsed env (accessToken input) (ref_id c)
         (guildId input) ;;
       ret tt
   | None => ret tt
   end ;;
   let* updated :=
     findOneAndUpdate_set feedId connectionId (updateQuery_set (updates input)) in
   let updatedConnection :=
     feed ← updated;
     List.find (has_id connectionId) (discordChannels (connections feed)) in
   match updatedConnection with
   | None => throw notUpdated
   | Some updatedConnection => ret updatedConnection
   end).

Module WebhookInput.
Record t : Type := {
  id : string;
  name : option string;
  iconUrl : option string
}.
End WebhookInput.

(** The record pushed by [createDiscordWebhookConnection]. *)
Definition newDiscordWebhookConnection
    (connectionId : ObjectId) (name : string) (input : WebhookInput.t)
    (fetched : DiscordWebhook) : DiscordWebhookConnection :=
  {| webhook_connection_id := connectionId;
     webhook_connection_name := name;
     webhook_connection_embeds := [];
     webhook :=
       {| webhook_iconUrl := WebhookInput.iconUrl input;
          webhook_ref_id := WebhookInput.id input;
          webhook_name := WebhookInput.name input;
          token := webhook_token fetched |} |}.

Definition webhookNonexistent (id : string) : Exception :=
  DiscordWebhookNonexistentException
    ("Discord webohok " +:+ id +:+ " does not exist").

Definition webhookInvalidType (id : string) : Exception :=
  DiscordWebhookInvalidTypeException
    ("Discord webhook " +:+ id
     +:+ " is a different type and is not operable by bot to send messages").

Definition webhookNotOwned (id guildId : string) : Exception :=
  DiscordWebhookNotOwnedException
    ("Discord webhook " +:+ id +:+ " is not owned by guild " +:+ guildId).

Definition webhookMissingUserPerm (id : string) : Exception :=
  DiscordWebhookMissingUserPermException
    ("User does not manage guild of webhook webhook " +:+ id).

(** [connectionId] is the value of [new Types.ObjectId()]. *)
Definition createDiscordWebhookConnection
    (env : Env) (connectionId : ObjectId)
    (accessToken feedId guildId name : string) (input : WebhookInput.t)
    : M DiscordWebhookConnection :=
  let id := WebhookInput.id input in
  (let* fetched := await (CallGetWebhook id) (getWebhook env id) in
   match fetched with
   | None => throw (webhookNonexistent id)
   | Some fetched =>
       let* usable :=
         (log (CallCanBeUsedByBot fetched) ;; ret (canBeUsedByBot env fetched)) in
       if negb usable then throw (webhookInvalidType id)
       else if negb (String.eqb (webhook_guild_id fetched) guildId)
       then throw (webhookNotOwned id guildId)
       else
         let* manages :=
           await (CallUserManagesGuild accessToken guildId)
                 (userManagesGuild env accessToken guildId) in
         if negb manages then throw (webhookMissingUserPerm id)
         else
           let* updated :=
             findOneAndUpdate_pushDiscordWebhook feedId
               (newDiscordWebhookConnection connectionId name input fetched) in
           let createdConnection :=
             feed ← updated;
             List.find (webhook_has_id connectionId)
               (discordWebhooks (connections feed)) in
           match createdConnection with
           | None => throw notCreated
           | Some createdConnection => ret createdConnection
           end
   end).

(** ** Ownership of destinations *)

(** The lookup of a channel under some credential answers with a channel
    of the given guild: what a passed verification has seen. *)
Definition verified_in (env : Env) (channelId accessToken guildId : string) : Prop :=
  exists channel,
    canUseChannel env channelId accessToken = inr channel
    /\ channel_guild_id channel = guildId.

(** The channel id that a stored connection delivers to:
    [connection.details.channel.id]. *)
Definition destination (c : DiscordChannelConnection) : option string :=
  match details c !! "channel" with
  | Some v => match get "id" v with Str channelId => Some channelId | _ => None end
  | None => None
  end.

(** A connection's destination belongs to a guild. *)
Definition owned_by (env : Env) (c : DiscordChannelConnection) (g : string) : Prop :=
  exists channelId accessToken,
    destination c = Some channelId /\ verified_in env channelId accessToken g.

(** Every channel connection delivers to a channel of the guild that owns
    its feed. *)
Definition destinations_owned (env : Env) (fs : gmap string Feed) : Prop :=
  forall feedId feed c,
    fs !! feedId = Some feed ->
    c ∈ discordChannels (connections feed) ->
    owned_by env c (guild feed).

(** The guild id of a call is the guild of the feed the call addresses.
    The service takes the guild id from its caller and never reads the
    guild of the feed. *)
Definition addresses_own_guild (w : World) (feedId guildId : string) : Prop :=
  forall feed, feeds w !! feedId = Some feed -> guild feed = guildId.

(** The patch leaves the [channel] key out or binds it to an object, as
    the type of [details.channel] has it. *)
Definition channel_key_is_object (u : Updates.t) : bool :=
  match Updates.details u ≫= channelKey with
  | Some ChannelUndefined | Some ChannelNull => false
  | Some (ChannelObject _) | None => true
  end.

(** A call of one of the three public methods, with its arguments.  The
    connection id of a create is the value of [new Types.ObjectId()]. *)
Inductive Operation : Type :=
| CreateDiscordChannelConnection (connectionId : ObjectId)
    (feedId name channelId userAccessToken guildId : string)
| UpdateDiscordChannelConnection (feedId : string) (connectionId : ObjectId)
    (input : UpdateDiscordChannelConnectionInput)
| CreateDiscordWebhookConnection (connectionId : ObjectId)
    (accessToken feedId guildId name : string) (input : WebhookInput.t).

(** The world after a call, whether it returned or threw. *)
Definition perform (env : Env) (w : World) (op : Operation) : World :=
  match op with
  | CreateDiscordChannelConnection connectionId feedId name channelId
      userAccessToken guildId =>
      (createDiscordChannelConnection env connectionId feedId name channelId
         userAccessToken guildId w).2
  | UpdateDiscordChannelConnection feedId connectionId input =>
      (updateDiscordChannelConnection env feedId connectionId input w).2
  | CreateDiscordWebhookConnection connectionId accessToken feedId guildId name
      input =>
      (createDiscordWebhookConnection env connectionId accessToken feedId guildId
         name input w).2
  end.

(** A call on channel connections that hands in the guild of the feed it
    addresses and, for an update, a [channel] key that is an object if it
    is there at all.  A call on webhook connections touches no channel
    connection. *)
Definition well_addressed (w : World) (op : Operation) : Prop :=
  match op with
  | CreateDiscordChannelConnection _ feedId _ _ _ guildId =>
      addresses_own_guild w feedId guildId
  | UpdateDiscordChannelConnection feedId _ input =>
      addresses_own_guild w feedId (guildId input)
      /\ channel_key_is_object (updates input) = true
  | CreateDiscordWebhookConnection _ _ _ _ _ _ => True
  end.

(** ** Identifiers of connections *)

Definition channel_ids (feed : Feed) : list ObjectId :=
  id <$> discordChannels (connections feed).

Definition webhook_ids (feed : Feed) : list ObjectId :=
  webhook_connection_id <$> discordWebhooks (connections feed).

(** A connection's identifier is unique within its parent feed, among the
    connections of its kind. *)
Definition unique_ids (fs : gmap string Feed) : Prop :=
  forall feedId feed,
    fs !! feedId = Some feed ->
    NoDup (channel_ids feed) /\ NoDup (webhook_ids feed).

(** The four facts that [createDiscordWebhookConnection] checks. *)
Definition webhook_checks_pass
    (env : Env) (accessToken guildId webhookId : string) (fetched : DiscordWebhook)
    : Prop :=
  getWebhook env webhookId = inr (Some fetched)
  /\ canBeUsedByBot env fetched = true
  /\ webhook_guild_id fetched = guildId
  /\ userManagesGuild env accessToken guildId = inr true.

End FeedConnections.

(** ** Delivery records *)
Module DeliveryRecords.

Local Open Scope Z_scope.

(** [ArticleDeliveryStatus]: the service names [Sent], [Failed] and
    [Rejected] and leaves room for further members in [store]. *)
Inductive ArticleDeliveryStatus : Type :=
| Sent
| Failed
| Rejected
| OtherStatus (tag : string).

(** [ArticleDeliveryState]: the error fields exist on the [Failed] and
    [Rejected] variants only. *)
Inductive ArticleDeliveryState : Type :=
| StateSent
| StateFailed (errorCode internalMessage : string)
| StateRejected (errorCode internalMessage : string)
| StateOther (tag : string).

Definition state_status (articleState : ArticleDeliveryState) : ArticleDeliveryStatus :=
  match articleState with
  | StateSent => Sent
  | StateFailed _ _ => Failed
  | StateRejected _ _ => Rejected
  | StateOther tag => OtherStatus tag
  end.

(** Times are milliseconds since the epoch, as [Date] has them. *)
Record DeliveryRecord : Type := {
  feed_id : string;
  status : ArticleDeliveryStatus;
  error_code : option string;
  internal_message : option string;
  created_at : Z
}.

(** The table behind [recordRepo], in insertion order, and the clock that
    [dayjs()] and a new record's timestamp read. *)
Record Db : Type := {
  records : list DeliveryRecord;
  now : Z
}.

(** Modelled from the spec: the [DeliveryRecord] entity class is not in the
    sources; a record takes its creation timestamp when it is constructed,
    once per delivery attempt. *)
Definition new_DeliveryRecord
    (db : Db) (feedId : string) (s : ArticleDeliveryStatus)
    (errorCode internalMessage : option string) : DeliveryRecord :=
  {| feed_id := feedId; status := s; error_code := errorCode;
     internal_message := internalMessage; created_at := now db |}.

Definition persistAndFlush (record : DeliveryRecord) (db : Db) : Db :=
  {| records := records db ++ [record]; now := now db |}.

Definition store (feedId : string) (articleState : ArticleDeliveryState) (db : Db) : Db :=
  let articleStatus := state_status articleState in
  let record :=
    match articleState with
    | StateSent => new_DeliveryRecord db feedId articleStatus None None
    | StateFailed errorCode internalMessage
    | StateRejected errorCode internalMessage =>
        new_DeliveryRecord db feedId articleStatus (Some errorCode)
          (Some internalMessage)
    | StateOther _ => new_DeliveryRecord db feedId articleStatus None None
    end in
  persistAndFlush record db.

(** [status: {$in: [Sent, Rejected]}] *)
Definition status_in_Sent_Rejected (s : ArticleDeliveryStatus) : bool :=
  match s with
  | Sent | Rejected => true
  | _ => false
  end.

(** [dayjs().subtract(secondsInPast, "second").toDate()] *)
Definition cutoff (db : Db) (secondsInPast : Z) : Z :=
  now db - secondsInPast * 1000.

Definition matches (feedId : string) (since : Z) (r : DeliveryRecord) : bool :=
  String.eqb (feed_id r) feedId
  && status_in_Sent_Rejected (status r)
  && (since <=? created_at r).

Definition countDeliveriesInPastTimeframe
    (feedId : string) (secondsInPast : Z) (db : Db) : nat :=
  length (List.filter (matches feedId (cutoff db secondsInPast)) (records db)).

(** The count as the specification words it: status [Sent] or [Rejected]
    and creation time within [[now - windowSeconds, now]]. *)
Definition in_window (feedId : string) (windowSeconds : Z) (db : Db)
    (r : DeliveryRecord) : bool :=
  String.eqb (feed_id r) feedId
  && match status r with Sent | Rejected => true | _ => false end
  && (now db - windowSeconds * 1000 <=? created_at r)
  && (created_at r <=? now db).

Definition countRecent_spec (feedId : string) (windowSeconds : Z) (db : Db) : nat :=
  length (List.filter (in_window feedId windowSeconds db) (records db)).

(** What can happen to the table: a delivery is recorded, or time passes.
    Calls are taken one at a time: the record of a [Store] is stamped and
    written in the same step, so the order in which the records of
    overlapping calls land is not part of this model. *)
Inductive Event : Type :=
| Store (feedId : string) (articleState : ArticleDeliveryState)
| Elapse (milliseconds : Z).

Definition step (db : Db) (e : Event) : Db :=
  match e with
  | Store feedId articleState => store feedId articleState db
  | Elapse ms => {| records := records db; now := now db + Z.max 0 ms |}
  end.

Definition empty_at (start : Z) : Db := {| records := []; now := start |}.

Definition run (start : Z) (events : list Event) : Db :=
  fold_left step events (empty_at start).

(** No record is dated after the clock. *)
Definition none_from_the_future (db : Db) : Prop :=
  Forall (fun r => created_at r <= now db) (records db).

End DeliveryRecords.

(** ** Feed query and update service

    [feeds.service.ts] is not among the sources; its test suite
    [feeds.service.spec.ts] and its caller [feeds.controller.ts] are.  The
    definitions below follow the specification and are pinned by those
    tests. *)
Module FeedsService.

Local Open Scope Z_scope.

Inductive FeedStatus : Type := OK | FAILED.

Record FeedWebhook : Type := { id : string }.

Record Feed : Type := {
  url : string;
  title : string;
  text : string;
  webhook : option FeedWebhook
}.

(** A fail record; its [_id] is the feed URL it is stored under. *)
Record FailRecord : Type := {
  reason : option string;
  failedAt : Z;
  alerted : bool
}.

(** The two collections the service reads and writes: feeds keyed by
    [_id], fail records keyed by URL. *)
Record Collections : Type := {
  feeds : gmap string Feed;
  failRecords : gmap string FailRecord
}.

(** A feed as the service returns it. *)
Record DetailedFeed : Type := {
  entity : Feed;
  status : FeedStatus
}.

Definition hours (n : Z) : Z := n * 3600 * 1000.

(** The threshold of the decay rule, in hours. *)
Definition thresholdHours : Z := 18.

Definition age (now : Z) (r : FailRecord) : Z := now - failedAt r.

(** Modelled from the spec: the status derivation of [FeedsService.findFeeds],
    which is not in the sources.  The threshold of 18 hours is the
    specification's.  The side of the threshold that counts as failed is the
    one its tests fix: "returns feed status failed correctly" expects
    [FAILED] for a record dated 1990, and "does not return failed status for
    fail records within the past 18 hours" expects [OK] for a record two
    hours old. *)
Definition feedStatus (now : Z) (record : option FailRecord) : FeedStatus :=
  match record with
  | Some r => if hours thresholdHours <=? age now r then FAILED else OK
  | None => OK
  end.

(** The status derivation as the specification words it: failed while the
    record's age is below the threshold. *)
Definition feedStatus_spec (now : Z) (record : option FailRecord) : FeedStatus :=
  match record with
  | Some r => if age now r <? hours thresholdHours then FAILED else OK
  | None => OK
  end.

(** Modelled from the spec: the annotation that [findFeeds] adds to each
    feed it returns, joining the fail record stored under the feed's URL. *)
Definition detailed (now : Z) (c : Collections) (feed : Feed) : DetailedFeed :=
  {| entity := feed;
     status := feedStatus now (failRecords c !! url feed) |}.

(** The patch of [updateOne], as the controller builds it:
    [{text, webhook: {id}}], every member optional. *)
Record WebhookPatch : Type := { webhook_id : option string }.

Record UpdateFeedInput : Type := {
  patch_text : option string;
  patch_webhook : option WebhookPatch
}.

Definition merge (patch : UpdateFeedInput) (feed : Feed) : Feed :=
  {| url := url feed;
     title := title feed;
     text := default (text feed) (patch_text patch);
     webhook :=
       match patch_webhook patch ≫= webhook_id with
       | Some wid =>
           if String.eqb wid "" then None else Some {| id := wid |}
       | None => webhook feed
       end |}.

(** Modelled from the spec: [FeedsService.updateOne], which is not in the
    sources.  It merges [text] when defined and the webhook pointer, removes
    the webhook object on an empty webhook id, and returns the updated
    entity, or [undefined] when no document has the id. *)
Definition updateOne (now : Z) (feedId : string) (patch : UpdateFeedInput)
    (c : Collections) : option DetailedFeed * Collections :=
  match feeds c !! feedId with
  | None => (None, c)
  | Some feed =>
      let updated := merge patch feed in
      let c' := {| feeds := <[feedId := updated]> (feeds c);
                   failRecords := failRecords c |} in
      (Some (detailed now c' updated), c')
  end.

Inductive Failure : Type := FeedDoesNotExist (feedId : string).

(** Modelled from the spec: [FeedsService.refresh], which is not in the
    sources.  It deletes the fail record stored under the feed's URL and
    returns the feed as read back, and fails when no feed has the id. *)
Definition refresh (now : Z) (feedId : string) (c : Collections)
    : (Failure + DetailedFeed) * Collections :=
  match feeds c !! feedId with
  | None => (inl (FeedDoesNotExist feedId), c)
  | Some feed =>
      let c' := {| feeds := feeds c;
                   failRecords := delete (url feed) (failRecords c) |} in
      (inr (detailed now c' feed), c')
  end.

End FeedsService.

(** ** The feeds controller: [FeedsController.updateFeed]

    From [feeds.controller.ts].  The route's guards and pipes have resolved
    the feed before the method runs; the services it calls are injected and
    defined elsewhere. *)
Module FeedsController.

Inductive Exception : Type :=
| BadRequestException (message : string)
| Rejection (description : string).

(** The feed resolved by [GetFeedPipe]; the fields that [updateFeed] reads. *)
Record DetailedFeed : Type := {
  _id : string;
  guild : string
}.

Record UpdateFeedInputDto : Type := {
  text : option string;
  webhookId : option string
}.

(** [supportersService.serverCanUseWebhooks(guild)],
    [webhooksService.getWebhook(id)] (only whether it found a webhook is
    used), [feedsService.updateOne(id, patch)] over the state [S] of the
    database, and [GetFeedOutputDto.fromEntity]. *)
Record Services (S R Dto : Type) : Type := {
  serverCanUseWebhooks : string -> Exception + bool;
  getWebhook : string -> Exception + bool;
  updateOne : string -> FeedsService.UpdateFeedInput -> S -> (Exception + R) * S;
  fromEntity : R -> Dto
}.
Arguments serverCanUseWebhooks {S R Dto}.
Arguments getWebhook {S R Dto}.
Arguments updateOne {S R Dto}.
Arguments fromEntity {S R Dto}.

Inductive Call : Type :=
| CallServerCanUseWebhooks (guild : string)
| CallGetWebhook (webhookId : string)
| CallUpdateOne (feedId : string) (patch : FeedsService.UpdateFeedInput).

(** The outcome of a request: what it answers, the database afterwards, and
    the service calls it made, in order. *)
Record Outcome (S Dto : Type) : Type := {
  answer : Exception + Dto;
  database : S;
  calls : list Call
}.
Arguments answer {S Dto}.
Arguments database {S Dto}.
Arguments calls {S Dto}.

(** [{text: updateFeedInput.text, webhook: {id: updateFeedInput.webhookId}}] *)
Definition patch_of (input : UpdateFeedInputDto) : FeedsService.UpdateFeedInput :=
  {| FeedsService.patch_text := text input;
     FeedsService.patch_webhook :=
       Some {| FeedsService.webhook_id := webhookId input |} |}.

(** The tail of [updateFeed]: the call of [updateOne] and the answer. *)
Definition update_and_answer {S R Dto} (svc : Services S R Dto)
    (feed : DetailedFeed) (input : UpdateFeedInputDto) (st : S) (made : list Call)
    : Outcome S Dto :=
  let (updatedFeed, st') := updateOne svc (_id feed) (patch_of input) st in
  {| answer := match updatedFeed with
               | inl err => inl err
               | inr updatedFeed => inr (fromEntity svc updatedFeed)
               end;
     database := st';
     calls := made ++ [CallUpdateOne (_id feed) (patch_of input)] |}.

(** [if (updateFeedInput.webhookId)] *)
Definition names_webhook (input : UpdateFeedInputDto) : option string :=
  match webhookId input with
  | Some id => if Js.truthy (Js.Str id) then Some id else None
  | None => None
  end.

Definition updateFeed {S R Dto} (svc : Services S R Dto)
    (feed : DetailedFeed) (input : UpdateFeedInputDto) (st : S) : Outcome S Dto :=
  match names_webhook input with
  | Some id =>
      let asked := [CallServerCanUseWebhooks (guild feed)] in
      match serverCanUseWebhooks svc (guild feed) with
      | inl err => {| answer := inl err; database := st; calls := asked |}
      | inr false =>
          {| answer :=
               inl (BadRequestException "This server does not have webhooks enabled");
             database := st; calls := asked |}
      | inr true =>
          let looked := asked ++ [CallGetWebhook id] in
          match getWebhook svc id with
          | inl err => {| answer := inl err; database := st; calls := looked |}
          | inr false =>
              {| answer := inl (BadRequestException "Webhook not found");
                 database := st; calls := looked |}
          | inr true => update_and_answer svc feed input st looked
          end
      end
  | None => update_and_answer svc feed input st []
  end.

End FeedsController.

(** ** The checkout hook: [usePaddleCheckout]

    The hook keeps the Paddle instance in a state cell, asks for one in an
    effect when it is mounted, and offers [openCheckout]. *)
Module PaddleCheckout.

(** A Paddle instance, as [initializePaddle] resolves with; opaque here. *)
Definition Paddle : Type := nat.

(** [user.result] of [useUserMe]. *)
Record User : Type := {
  id : string;
  email : option string
}.

(** The options of [initializePaddle]. *)
Record InitializeOptions : Type := {
  environment : string;
  seller : Z
}.

(** A call of [paddle.Checkout.open], with the instance it went to. *)
Record CheckoutOpen : Type := {
  instance : Paddle;
  items : list string;
  customer_email : string;
  theme : string;
  displayMode : string;
  allowLogout : bool;
  customData_userId : string
}.

(** The build-time configuration: [Number(import.meta.env.VITE_PADDLE_SELLER_ID)],
    where [None] stands for [NaN], and [import.meta.env.PROD]. *)
Record Config : Type := {
  paddleSellerId : option Z;
  PROD : bool
}.

(** The hook: the state cell [paddle], the initialisations asked for and
    not yet resolved, and the calls made so far. *)
Record Hook : Type := {
  paddle : option Paddle;
  pending : nat;
  initialized : list InitializeOptions;
  opened : list CheckoutOpen
}.

(** [useState<Paddle>()] on the first render. *)
Definition mounted : Hook :=
  {| paddle := None; pending := 0; initialized := []; opened := [] |}.

(** The body of the effect, up to the call of [initializePaddle]. *)
Definition effect (cfg : Config) (h : Hook) : Hook :=
  match paddleSellerId cfg with
  | None => h
  | Some sellerId =>
      {| paddle := paddle h;
         pending := S (pending h);
         initialized :=
           initialized h
           ++ [{| environment := if PROD cfg then "production" else "sandbox";
                  seller := sellerId |}];
         opened := opened h |}
  end.

(** The [then] callback: [if (paddleInstance) setPaddle(paddleInstance)]. *)
Definition resolved (paddleInstance : option Paddle) (h : Hook) : Hook :=
  match pending h with
  | O => h
  | S n =>
      {| paddle := match paddleInstance with
                   | Some p => Some p
                   | None => paddle h
                   end;
         pending := n;
         initialized := initialized h;
         opened := opened h |}
  end.

(** [openCheckout({priceId})]; [user] is [useUserMe().data]. *)
Definition openCheckout (user : option User) (priceId : string) (h : Hook) : Hook :=
  match user with
  | None => h
  | Some u =>
      match email u with
      | None => h
      | Some address =>
          if negb (Js.truthy (Js.Str address)) then h
          else
            match paddle h with
            | None => h
            | Some p =>
                {| paddle := paddle h;
                   pending := pending h;
                   initialized := initialized h;
                   opened :=
                     opened h
                     ++ [{| instance := p;
                            items := [priceId];
                            customer_email := address;
                            theme := "dark";
                            displayMode := "overlay";
                            allowLogout := false;
                            customData_userId := id u |}] |}
            end
      end
  end.

(** What happens to a mounted hook. *)
Inductive Event : Type :=
| Effect
| Resolved (paddleInstance : option Paddle)
| OpenCheckout (user : option User) (priceId : string).

Definition step (cfg : Config) (h : Hook) (e : Event) : Hook :=
  match e with
  | Effect => effect cfg h
  | Resolved paddleInstance => resolved paddleInstance h
  | OpenCheckout user priceId => openCheckout user priceId h
  end.

Definition run (cfg : Config) (events : list Event) : Hook :=
  fold_left (step cfg) events mounted.

(** The instances that the initialisations of a run resolved with. *)
Definition delivered (events : list Event) : list Paddle :=
  omap (fun e => match e with Resolved (Some p) => Some p | _ => None end) events.

End PaddleCheckout.

(** ** A concrete deployment

    One Discord guild with a second one next to it, one feed with one
    channel connection, used to exercise the properties below. *)
Module Scenario.

Import Js FeedConnections.

Definition env : Env :=
  {| canUseChannel := fun channelId _ =>
       if String.eqb channelId "channel-1"
       then inr {| channel_id := channelId; channel_guild_id := "guild-1" |}
       else if String.eqb channelId "channel-1b"
       then inr {| channel_id := channelId; channel_guild_id := "guild-1" |}
       else if String.eqb channelId "channel-2"
       then inr {| channel_id := channelId; channel_guild_id := "guild-2" |}
       else if String.eqb channelId "channel-private"
       then inl (DiscordAPIError 403)
       else if String.eqb channelId "channel-outage"
       then inl (DiscordAPIError 500)
       else inl (DiscordAPIError 404);
     getWebhook := fun webhookId =>
       if String.eqb webhookId "webhook-1"
       then inr (Some {| webhook_id := webhookId; webhook_guild_id := "guild-1";
                         webhook_token := Some "token-1" |})
       else if String.eqb webhookId "webhook-2"
       then inr (Some {| webhook_id := webhookId; webhook_guild_id := "guild-2";
                         webhook_token := Some "token-2" |})
       else if String.eqb webhookId "webhook-of-user"
       then inr (Some {| webhook_id := webhookId; webhook_guild_id := "guild-1";
                         webhook_token := None |})
       else inr None;
     canBeUsedByBot := fun w => negb (String.eqb (webhook_id w) "webhook-of-user");
     userManagesGuild := fun accessToken _ =>
       inr (String.eqb accessToken "manager");
     FeedConnectionType_DiscordChannel := "DISCORD_CHANNEL" |}.

Definition connection1 : DiscordChannelConnection :=
  {| id := "connection-1";
     name := "first";
     filters := Some (Obj [("expression", Obj [])]);
     details :=
       {[ "type" := Str "DISCORD_CHANNEL";
          "channel" := Obj [("id", Str "channel-1")];
          "embeds" := Arr [];
          "content" := Str "hello" ]} |}.

Definition feed1 : Feed :=
  {| guild := "guild-1";
     connections := {| discordChannels := [connection1]; discordWebhooks := [] |} |}.

Definition world : World :=
  {| feeds := {[ "feed-1" := feed1 ]}; calls := [] |}.

Definition patch (f : option Value) (n : option string) (d : option DetailsPatch)
    : UpdateDiscordChannelConnectionInput :=
  {| accessToken := "manager";
     updates := {| Updates.filters := f; Updates.name := n; Updates.details := d |};
     guildId := "guild-1" |}.

Definition webhookInput (webhookId : string) : WebhookInput.t :=
  {| WebhookInput.id := webhookId; WebhookInput.name := Some "hook";
     WebhookInput.iconUrl := None |}.

(** Deliveries of one feed: sent 120 s ago, rejected 20 s ago, sent 10 s
    ago, failed 5 s ago; and one delivery of another feed. *)
Definition deliveries : list DeliveryRecords.Event :=
  [ DeliveryRecords.Store "feed-1" DeliveryRecords.StateSent;
    DeliveryRecords.Elapse 100000;
    DeliveryRecords.Store "feed-1" (DeliveryRecords.StateRejected "403" "forbidden");
    DeliveryRecords.Store "feed-2" DeliveryRecords.StateSent;
    DeliveryRecords.Elapse 10000;
    DeliveryRecords.Store "feed-1" DeliveryRecords.StateSent;
    DeliveryRecords.Elapse 5000;
    DeliveryRecords.Store "feed-1" (DeliveryRecords.StateFailed "500" "outage");
    DeliveryRecords.Elapse 5000 ].

Definition started : Z := 1700000000000.

(** A feed with a webhook, and a fail record under its URL. *)
Definition oldFeed : FeedsService.Feed :=
  {| FeedsService.url := "https://example.com/feed";
     FeedsService.title := "example";
     FeedsService.text := "old-text";
     FeedsService.webhook := Some {| FeedsService.id := "old-webhook-id" |} |}.

Definition collections (current failedHoursAgo : Z) : FeedsService.Collections :=
  {| FeedsService.feeds := {[ "feed-1" := oldFeed ]};
     FeedsService.failRecords :=
       {[ "https://example.com/feed" :=
            {| FeedsService.reason := Some "reason";
               FeedsService.failedAt := current - FeedsService.hours failedHoursAgo;
               FeedsService.alerted := true |} ]} |}.

(** The controller over the feed collections, and the feed its pipe has
    resolved. *)
Definition feedServices (withWebhooks : bool)
    : FeedsController.Services FeedsService.Collections
        (option FeedsService.DetailedFeed) (option FeedsService.DetailedFeed) :=
  {| FeedsController.serverCanUseWebhooks := fun _ => inr withWebhooks;
     FeedsController.getWebhook := fun webhookId => inr (String.eqb webhookId "webhook-1");
     FeedsController.updateOne := fun feedId patch c =>
       (inr (FeedsService.updateOne started feedId patch c).1,
        (FeedsService.updateOne started feedId patch c).2);
     FeedsController.fromEntity := fun updated => updated |}.

Definition resolvedFeed : FeedsController.DetailedFeed :=
  {| FeedsController._id := "feed-1"; FeedsController.guild := "guild-1" |}.

Definition request (newText webhook : option string) : FeedsController.UpdateFeedInputDto :=
  {| FeedsController.text := newText; FeedsController.webhookId := webhook |}.

End Scenario.

(** * Properties of [FeedConnectionsService] *)
Section FeedConnectionsService_properties.

Import Js FeedConnections.
Local Open Scope async_scope.

Variable env : Env.

Ltac run := unfold bind, try_catch, await, log, settle, throw, ret, logged; simpl.

(** *** The webhook check chain *)

(** C2: [createDiscordWebhookConnection] evaluates existence, type,
    ownership and actor permission in that order.  The first check that
    fails decides the exception, whatever the later checks would have
    answered: [DiscordWebhookNonexistentException],
    [DiscordWebhookInvalidTypeException], [DiscordWebhookNotOwnedException]
    or [DiscordWebhookMissingUserPermException], each with its message.
    The calls logged stop at the failing check, the store is not called and
    the feed collection is unchanged. *)
Theorem C2_webhook_checks_in_order
    (connectionId : ObjectId) (accessToken feedId guildId name : string)
    (input : WebhookInput.t) (w : World) :
  let id := WebhookInput.id input in
  let result :=
    createDiscordWebhookConnection env connectionId accessToken feedId guildId
      name input w in
  (getWebhook env id = inr None ->
     result
     = (inl (DiscordWebhookNonexistentException
               ("Discord webohok " +:+ id +:+ " does not exist")),
        logged w [CallGetWebhook id]))
  /\ (forall fetched,
        getWebhook env id = inr (Some fetched) ->
        canBeUsedByBot env fetched = false ->
        result
        = (inl (DiscordWebhookInvalidTypeException
                  ("Discord webhook " +:+ id
                   +:+ " is a different type and is not operable by bot to send messages")),
           logged w [CallGetWebhook id; CallCanBeUsedByBot fetched]))
  /\ (forall fetched,
        getWebhook env id = inr (Some fetched) ->
        canBeUsedByBot env fetched = true ->
        webhook_guild_id fetched <> guildId ->
        result
        = (inl (DiscordWebhookNotOwnedException
                  ("Discord webhook " +:+ id +:+ " is not owned by guild " +:+ guildId)),
           logged w [CallGetWebhook id; CallCanBeUsedByBot fetched]))
  /\ (forall fetched,
        getWebhook env id = inr (Some fetched) ->
        canBeUsedByBot env fetched = true ->
        webhook_guild_id fetched = guildId ->
        userManagesGuild env accessToken guildId = inr false ->
        result
        = (inl (DiscordWebhookMissingUserPermException
                  ("User does not manage guild of webhook webhook " +:+ id)),
           logged w [CallGetWebhook id; CallCanBeUsedByBot fetched;
                     CallUserManagesGuild accessToken guildId])).
Proof.
  intros id result; subst id result.
  unfold createDiscordWebhookConnection.
  split; [|split; [|split]].
  - intros Hget. run. by rewrite Hget.
  - intros fetched Hget Hbot. run. rewrite Hget; simpl. rewrite Hbot; simpl.
    by rewrite <- app_assoc.
  - intros fetched Hget Hbot Hguild. run. rewrite Hget; simpl. rewrite Hbot; simpl.
    apply String.eqb_neq in Hguild. rewrite Hguild; simpl.
    by rewrite <- app_assoc.
  - intros fetched Hget Hbot Hguild Hperm. run. rewrite Hget; simpl.
    rewrite Hbot; simpl.
    apply String.eqb_eq in Hguild. rewrite Hguild; simpl.
    rewrite Hperm; simpl.
    by rewrite <- !app_assoc.
Qed.

(** *** Channel verification on create *)

Lemma assertDiscordChannelCanBeUsed_run (accessToken channelId guildId : string) (w : World) :
  assertDiscordChannelCanBeUsed env accessToken channelId guildId w =
  (match canUseChannel env channelId accessToken with
   | inr channel =>
       if String.eqb (channel_guild_id channel) guildId then inr channel
       else inl (channelNotOwned channelId guildId)
   | inl (DiscordAPIError statusCode) =>
       if (statusCode =? HttpStatus_NOT_FOUND)%Z
       then inl MissingDiscordChannelException
       else if (statusCode =? HttpStatus_FORBIDDEN)%Z
       then inl DiscordChannelPermissionsException
       else inl (DiscordAPIError statusCode)
   | inl err => inl err
   end,
   logged w [CallCanUseChannel channelId accessToken]).
Proof.
  unfold assertDiscordChannelCanBeUsed. run.
  destruct (canUseChannel env channelId accessToken) as [err|channel]; simpl.
  - destruct err; try reflexivity.
    destruct (statusCode =? HttpStatus_NOT_FOUND)%Z; [reflexivity|].
    destruct (statusCode =? HttpStatus_FORBIDDEN)%Z; reflexivity.
  - destruct (String.eqb (channel_guild_id channel) guildId); reflexivity.
Qed.

(** C3: when the channel fetched for a create belongs to another guild
    than the requested one, [createDiscordChannelConnection] fails with
    [DiscordChannelNotOwnedException] and the feed collection is unchanged;
    a Discord API error 404 becomes [MissingDiscordChannelException], a 403
    becomes [DiscordChannelPermissionsException], and every other failure
    of the lookup is rethrown as it is.  In all four cases the store is
    never called. *)
Theorem C3_channel_create_failures
    (connectionId : ObjectId)
    (feedId name channelId userAccessToken guildId : string) (w : World) :
  let result :=
    createDiscordChannelConnection env connectionId feedId name channelId
      userAccessToken guildId w in
  let verified := logged w [CallCanUseChannel channelId userAccessToken] in
  (forall channel,
     canUseChannel env channelId userAccessToken = inr channel ->
     channel_guild_id channel <> guildId ->
     result
     = (inl (DiscordChannelNotOwnedException
               ("Discord channel " +:+ channelId +:+ " is not owned by guild "
                +:+ guildId)),
        verified))
  /\ (canUseChannel env channelId userAccessToken
       = inl (DiscordAPIError HttpStatus_NOT_FOUND) ->
      result = (inl MissingDiscordChannelException, verified))
  /\ (canUseChannel env channelId userAccessToken
       = inl (DiscordAPIError HttpStatus_FORBIDDEN) ->
      result = (inl DiscordChannelPermissionsException, verified))
  /\ (forall err,
        canUseChannel env channelId userAccessToken = inl err ->
        err <> DiscordAPIError HttpStatus_NOT_FOUND ->
        err <> DiscordAPIError HttpStatus_FORBIDDEN ->
        result = (inl err, verified)).
Proof.
  intros result verified.
  assert (Hrun : forall e,
             (assertDiscordChannelCanBeUsed env userAccessToken channelId guildId w).1
             = inl e ->
             result = (inl e, verified)).
  { intros e He. subst result verified.
    unfold createDiscordChannelConnection, bind at 1.
    rewrite assertDiscordChannelCanBeUsed_run in He |- *. simpl in He.
    by rewrite He. }
  split; [|split; [|split]]; intros; apply Hrun;
    rewrite assertDiscordChannelCanBeUsed_run; simpl.
  - match goal with H : canUseChannel _ _ _ = _ |- _ => rewrite H end.
    match goal with H : _ <> guildId |- _ => apply String.eqb_neq in H; by rewrite H end.
  - match goal with H : canUseChannel _ _ _ = _ |- _ => by rewrite H end.
  - match goal with H : canUseChannel _ _ _ = _ |- _ => by rewrite H end.
  - match goal with H : canUseChannel _ _ _ = _ |- _ => rewrite H end.
    destruct err; try reflexivity.
    destruct (Z.eqb_spec statusCode HttpStatus_NOT_FOUND) as [->|_]; [done|].
    destruct (Z.eqb_spec statusCode HttpStatus_FORBIDDEN) as [->|_]; done.
Qed.

(** *** The [$set] document and its effect on a connection *)

Lemma setRecordDetails_map (u : Updates.t) :
  setRecordDetails u = map details_path (patch_entries u).
Proof.
  unfold setRecordDetails.
  enough (forall l acc,
            fold_left (fun acc entry => acc ++ [details_path entry]) l acc
            = acc ++ map details_path l) as H by apply (H _ []).
  induction l as [|e l IH]; intros acc; simpl.
  - by rewrite app_nil_r.
  - by rewrite IH, <- app_assoc.
Qed.

Lemma positional_field_details (k : string) :
  positional_field (positional +:+ "details." +:+ k) = Some (FieldDetails k).
Proof. reflexivity. Qed.

Lemma lookup_entry_None (k : string) (l : list (string * Value)) :
  lookup_entry k l = None <-> k ∉ l.*1.
Proof.
  induction l as [|[k' v] l IH]; simpl.
  - split; [intros _; apply not_elem_of_nil | done].
  - rewrite not_elem_of_cons, <- IH.
    destruct (lookup_entry k l); [intuition congruence|].
    destruct (String.eqb_spec k' k); intuition congruence.
Qed.

Lemma apply_set_app (l1 l2 : list (string * Value)) (c : DiscordChannelConnection) :
  apply_set (l1 ++ l2) c = apply_set l2 (apply_set l1 c).
Proof. apply fold_left_app. Qed.

(** Setting [details] keys leaves [id], [name] and [filters] alone, and
    gives each key its last value among the entries. *)
Lemma apply_set_details (es : list (string * Value)) (c : DiscordChannelConnection) :
  let c' := apply_set (map details_path es) c in
  id c' = id c /\ name c' = name c /\ filters c' = filters c
  /\ forall k, details c' !! k
               = match lookup_entry k es with
                 | Some v => Some v
                 | None => details c !! k
                 end.
Proof.
  revert c. induction es as [|[k' v] es IH]; intros c; simpl.
  - done.
  - destruct (IH (set_field c (details_path (k', v)))) as (Hid & Hname & Hfil & Hdet).
    unfold apply_set in *. simpl.
    rewrite Hid, Hname, Hfil.
    unfold set_field at 1 2 3, details_path; simpl fst.
    rewrite positional_field_details; simpl.
    repeat split. intros k. rewrite Hdet.
    destruct (lookup_entry k es); [done|].
    unfold set_field, details_path; simpl fst.
    rewrite positional_field_details; simpl.
    destruct (String.eqb_spec k' k) as [->|Hne].
    + by rewrite lookup_insert_eq.
    + by rewrite lookup_insert_ne.
Qed.

(** What the [$set] document of a patch does to the matched connection. *)
Lemma apply_set_updateQuery (u : Updates.t) (c : DiscordChannelConnection) :
  let c' := apply_set (updateQuery_set u) c in
  id c' = id c
  /\ name c' = match Updates.name u with
               | Some n => if String.eqb n "" then name c else n
               | None => name c
               end
  /\ filters c' = match Updates.filters u with
                  | Some f => if truthy f then Some f else filters c
                  | None => filters c
                  end
  /\ forall k, details c' !! k
               = match lookup_entry k (patch_entries u) with
                 | Some v => Some v
                 | None => details c !! k
                 end.
Proof.
  unfold updateQuery_set. rewrite setRecordDetails_map, !apply_set_app.
  destruct (apply_set_details (patch_entries u) c) as (Hid & Hname & Hfil & Hdet).
  set (c1 := apply_set (map details_path (patch_entries u)) c) in *.
  clearbody c1.
  destruct (Updates.filters u) as [f|], (Updates.name u) as [n|]; simpl;
    try destruct (truthy f); try destruct (String.eqb n ""); simpl; done.
Qed.

(** *** The store after an update *)

Lemma update_first_lookup {A} (p : A -> bool) (f : A -> A) (l : list A) (i : nat) (x : A) :
  l !! i = Some x ->
  update_first p f l !! i = Some x \/ update_first p f l !! i = Some (f x).
Proof.
  revert i. induction l as [|y l IH]; intros i Hi; simpl in *; [done|].
  destruct (p y), i as [|i]; simpl in *; simplify_eq; auto.
Qed.

Lemma update_first_length {A} (p : A -> bool) (f : A -> A) (l : list A) :
  length (update_first p f l) = length l.
Proof.
  induction l as [|y l IH]; simpl; [done|].
  destruct (p y); simpl; congruence.
Qed.

(** The conditional update, by what its query selects. *)
Lemma findOneAndUpdate_set_run
    (feedId : string) (connectionId : ObjectId) (doc : list (string * Value))
    (w : World) :
  findOneAndUpdate_set feedId connectionId doc w =
  match selected feedId connectionId w with
  | Some feed =>
      let updated :=
        with_discordChannels feed
          (update_first (has_id connectionId) (apply_set doc)
             (discordChannels (connections feed))) in
      (inr (Some updated),
       store feedId updated (logged w [CallFindOneAndUpdate feedId]))
  | None => (inr None, logged w [CallFindOneAndUpdate feedId])
  end.
Proof.
  unfold findOneAndUpdate_set. run.
  change (selected feedId connectionId _) with (selected feedId connectionId w).
  by destruct (selected feedId connectionId w).
Qed.

(** [updateDiscordChannelConnection], step by step: the verification when
    the patch names a channel, then the conditional update. *)
Lemma updateDiscordChannelConnection_run
    (feedId : string) (connectionId : ObjectId)
    (input : UpdateDiscordChannelConnectionInput) (w : World) :
  updateDiscordChannelConnection env feedId connectionId input w =
  let verification :=
    match Updates.details (updates input) ≫= channel with
    | Some c =>
        assertDiscordChannelCanBeUsed env (accessToken input) (ref_id c)
          (guildId input) w
    | None => (inr {| channel_id := ""; channel_guild_id := "" |}, w)
    end in
  match verification with
  | (inl err, w1) => (inl err, w1)
  | (inr _, w1) =>
      match selected feedId connectionId w1 with
      | Some feed =>
          let updated :=
            with_discordChannels feed
              (update_first (has_id connectionId)
                 (apply_set (updateQuery_set (updates input)))
                 (discordChannels (connections feed))) in
          (match List.find (has_id connectionId)
                             (discordChannels (connections updated)) with
           | Some c => inr c
           | None => inl notUpdated
           end,
           store feedId updated (logged w1 [CallFindOneAndUpdate feedId]))
      | None => (inl notUpdated, logged w1 [CallFindOneAndUpdate feedId])
      end
  end.
Proof.
  unfold updateDiscordChannelConnection.
  unfold bind at 1.
  destruct (Updates.details (updates input) ≫= channel) as [c|]; simpl.
  - unfold bind at 1.
    destruct (assertDiscordChannelCanBeUsed _ _ _ _ w) as [[err|ch] w1]; simpl;
      [done|].
    unfold ret at 1, bind at 1. rewrite findOneAndUpdate_set_run.
    destruct (selected feedId connectionId w1) as [feed|]; simpl; [|done].
    by destruct (List.find _ _).
  - unfold ret at 1, bind at 1. rewrite findOneAndUpdate_set_run.
    destruct (selected feedId connectionId w) as [feed|]; simpl; [|done].
    by destruct (List.find _ _).
Qed.

Lemma selected_Some (feedId : string) (connectionId : ObjectId) (w : World) (feed : Feed) :
  selected feedId connectionId w = Some feed ->
  feeds w !! feedId = Some feed
  /\ existsb (has_id connectionId) (discordChannels (connections feed)) = true.
Proof.
  unfold selected. destruct (feeds w !! feedId) as [f|]; [|done].
  destruct (existsb _ _) eqn:Hex; [|done]. by intros [= ->].
Qed.

Lemma selected_logged (feedId : string) (connectionId : ObjectId) (w : World) cs :
  selected feedId connectionId (logged w cs) = selected feedId connectionId w.
Proof. reflexivity. Qed.

Lemma assertDiscordChannelCanBeUsed_passed
    (accessToken channelId guildId : string) (w w1 : World) channel :
  assertDiscordChannelCanBeUsed env accessToken channelId guildId w = (inr channel, w1) ->
  verified_in env channelId accessToken guildId
  /\ w1 = logged w [CallCanUseChannel channelId accessToken].
Proof.
  rewrite assertDiscordChannelCanBeUsed_run. intros [= Hres <-]. split; [|done].
  destruct (canUseChannel env channelId accessToken) as [err|ch] eqn:Hch.
  - destruct err; try done.
    destruct (statusCode =? HttpStatus_NOT_FOUND)%Z; [done|].
    by destruct (statusCode =? HttpStatus_FORBIDDEN)%Z.
  - destruct (String.eqb_spec (channel_guild_id ch) guildId); [|done].
    by exists ch.
Qed.

(** The feed collection after [updateDiscordChannelConnection]: either
    untouched, or the selected feed with its first matching connection
    patched, and then any channel named by the patch has been verified. *)
Lemma updateDiscordChannelConnection_feeds
    (feedId : string) (connectionId : ObjectId)
    (input : UpdateDiscordChannelConnectionInput) (w : World) :
  let w' := (updateDiscordChannelConnection env feedId connectionId input w).2 in
  feeds w' = feeds w
  \/ exists feed,
       feeds w !! feedId = Some feed
       /\ feeds w'
          = <[feedId :=
                with_discordChannels feed
                  (update_first (has_id connectionId)
                     (apply_set (updateQuery_set (updates input)))
                     (discordChannels (connections feed)))]> (feeds w)
       /\ forall c, Updates.details (updates input) ≫= channel = Some c ->
                    verified_in env (ref_id c) (accessToken input) (guildId input).
Proof.
  rewrite updateDiscordChannelConnection_run; simpl.
  destruct (Updates.details (updates input) ≫= channel) as [c|].
  - destruct (assertDiscordChannelCanBeUsed _ _ _ _ w) as [[err|ch] w1] eqn:Hv.
    + left. rewrite assertDiscordChannelCanBeUsed_run in Hv. by injection Hv as _ <-.
    + apply assertDiscordChannelCanBeUsed_passed in Hv as [Hv ->].
      rewrite selected_logged.
      destruct (selected feedId connectionId w) as [feed|] eqn:Hsel; [|by left].
      right. exists feed. apply selected_Some in Hsel as [Hfeed _].
      split; [done|]. split; [done|]. by intros ? [= <-].
  - destruct (selected feedId connectionId w) as [feed|] eqn:Hsel; [|by left].
    right. exists feed. apply selected_Some in Hsel as [Hfeed _].
    split; [done|]. split; [done|]. done.
Qed.

(** *** Frame of an update *)

(** Where the entries of the [$set] document come from. *)
Lemma updateQuery_set_entries (u : Updates.t) (path : string) (v : Value) :
  (path, v) ∈ updateQuery_set u ->
  (exists k, path = "connections.discordChannels.$.details." +:+ k
             /\ (k, v) ∈ patch_entries u)
  \/ (path = "connections.discordChannels.$.filters"
      /\ Updates.filters u = Some v /\ truthy v = true)
  \/ (exists n, path = "connections.discordChannels.$.name"
                /\ v = Str n /\ Updates.name u = Some n /\ n <> "").
Proof.
  unfold updateQuery_set.
  rewrite setRecordDetails_map, !elem_of_app, list_elem_of_fmap.
  intros [([k v'] & [= -> ->] & Hin)|[Hin|Hin]].
  - left. by exists k.
  - right; left. destruct (Updates.filters u) as [f|]; [|by apply elem_of_nil in Hin].
    destruct (truthy f) eqn:Hf; [|by apply elem_of_nil in Hin].
    by apply list_elem_of_singleton in Hin as [= -> ->].
  - right; right. destruct (Updates.name u) as [n|]; [|by apply elem_of_nil in Hin].
    simpl in Hin. destruct (String.eqb_spec n ""); [by apply elem_of_nil in Hin|].
    apply list_elem_of_singleton in Hin as [= -> ->]. by exists n.
Qed.

(** Every feed is still there after an update, with its guild, its webhook
    connections and as many channel connections as before; each channel
    connection is as it was, or is the patched one. *)
Lemma updateDiscordChannelConnection_connections
    (feedId : string) (connectionId : ObjectId)
    (input : UpdateDiscordChannelConnectionInput) (w : World) :
  let w' := (updateDiscordChannelConnection env feedId connectionId input w).2 in
  forall fid feed,
    feeds w !! fid = Some feed ->
    exists feed',
      feeds w' !! fid = Some feed'
      /\ guild feed' = guild feed
      /\ discordWebhooks (connections feed') = discordWebhooks (connections feed)
      /\ length (discordChannels (connections feed'))
         = length (discordChannels (connections feed))
      /\ forall i c,
           discordChannels (connections feed) !! i = Some c ->
           discordChannels (connections feed') !! i = Some c
           \/ discordChannels (connections feed') !! i
              = Some (apply_set (updateQuery_set (updates input)) c).
Proof.
  intros w' fid feed Hfeed.
  destruct (updateDiscordChannelConnection_feeds feedId connectionId input w)
    as [Heq|(target & Htarget & Heq & _)]; fold w' in Heq; rewrite Heq.
  { exists feed. repeat (split; [done|]). auto. }
  destruct (decide (feedId = fid)) as [->|Hne].
  - rewrite lookup_insert_eq. eexists; split; [done|].
    rewrite Htarget in Hfeed. injection Hfeed as ->. simpl.
    rewrite update_first_length. repeat (split; [done|]).
    intros i c Hc. by apply update_first_lookup.
  - rewrite lookup_insert_ne by done. exists feed.
    repeat (split; [done|]). auto.
Qed.

(** C5: after [updateDiscordChannelConnection], every stored channel
    connection keeps its [filters] when the patch has none, its [name] when
    the patch has none, and the value of every [details] key that the
    patch's [details] does not bind (guild, webhook connections and the
    number of channel connections of every feed are kept as well).  The
    [$set] document holds nothing but the provided [details] keys, each
    under its dotted path, and the provided [filters] and [name]. *)
Theorem C5_absent_fields_keep_stored_value
    (feedId : string) (connectionId : ObjectId)
    (input : UpdateDiscordChannelConnectionInput) (w : World) :
  let u := updates input in
  let w' := (updateDiscordChannelConnection env feedId connectionId input w).2 in
  (forall path v,
     (path, v) ∈ updateQuery_set u ->
     (exists k, path = "connections.discordChannels.$.details." +:+ k
                /\ (k, v) ∈ patch_entries u)
     \/ (path = "connections.discordChannels.$.filters"
         /\ Updates.filters u = Some v)
     \/ (exists n, path = "connections.discordChannels.$.name"
                   /\ v = Str n /\ Updates.name u = Some n))
  /\ (forall fid feed,
        feeds w !! fid = Some feed ->
        exists feed',
          feeds w' !! fid = Some feed'
          /\ guild feed' = guild feed
          /\ discordWebhooks (connections feed') = discordWebhooks (connections feed)
          /\ length (discordChannels (connections feed'))
             = length (discordChannels (connections feed))
          /\ forall i c,
               discordChannels (connections feed) !! i = Some c ->
               exists c',
                 discordChannels (connections feed') !! i = Some c'
                 /\ id c' = id c
                 /\ (Updates.filters u = None -> filters c' = filters c)
                 /\ (Updates.name u = None -> name c' = name c)
                 /\ (forall k, k ∉ (patch_entries u).*1 ->
                               details c' !! k = details c !! k)).
Proof.
  intros u w'. split.
  - intros path v Hin.
    destruct (updateQuery_set_entries u path v Hin)
      as [?|[(? & ? & _)|(n & ? & ? & ? & _)]]; eauto 6.
  - intros fid feed Hfeed. subst u.
    destruct (updateDiscordChannelConnection_connections
                feedId connectionId input w fid feed Hfeed)
      as (feed' & Hfeed' & Hguild & Hhooks & Hlen & Hconns).
    exists feed'. repeat (split; [done|]).
    intros i c Hc. destruct (Hconns i c Hc) as [Hi|Hi]; rewrite Hi.
    + by exists c.
    + eexists; split; [done|].
      destruct (apply_set_updateQuery (updates input) c) as (Hid & Hname & Hfil & Hdet).
      split; [done|]. split; [|split].
      * intros Hnone. by rewrite Hfil, Hnone.
      * intros Hnone. by rewrite Hname, Hnone.
      * intros k Hk. apply lookup_entry_None in Hk. by rewrite Hdet, Hk.
Qed.

(** C10: a [name] given as the empty string, or [filters] given as a falsy
    value, puts no entry into the [$set] document; the whole operation is
    the one of the patch without that field, and no stored [name]
    (respectively [filters]) changes. *)
Theorem C10_falsy_name_and_filters_are_skipped
    (feedId : string) (connectionId : ObjectId) (token guild_id : string)
    (patch_filters : option Value) (patch_name : option string)
    (patch_details : option DetailsPatch) (w : World) :
  let input f n :=
    {| accessToken := token;
       updates := {| Updates.filters := f; Updates.name := n;
                     Updates.details := patch_details |};
       guildId := guild_id |} in
  let given := input patch_filters patch_name in
  let w' := (updateDiscordChannelConnection env feedId connectionId given w).2 in
  (patch_name = Some "" ->
     (forall v, ("connections.discordChannels.$.name", v)
                ∉ updateQuery_set (updates given))
     /\ updateDiscordChannelConnection env feedId connectionId given w
        = updateDiscordChannelConnection env feedId connectionId
            (input patch_filters None) w
     /\ forall fid feed i c,
          feeds w !! fid = Some feed ->
          discordChannels (connections feed) !! i = Some c ->
          exists feed' c',
            feeds w' !! fid = Some feed'
            /\ discordChannels (connections feed') !! i = Some c'
            /\ name c' = name c)
  /\ (forall f,
        patch_filters = Some f -> truthy f = false ->
        (forall v, ("connections.discordChannels.$.filters", v)
                   ∉ updateQuery_set (updates given))
        /\ updateDiscordChannelConnection env feedId connectionId given w
           = updateDiscordChannelConnection env feedId connectionId
               (input None patch_name) w
        /\ forall fid feed i c,
             feeds w !! fid = Some feed ->
             discordChannels (connections feed) !! i = Some c ->
             exists feed' c',
               feeds w' !! fid = Some feed'
               /\ discordChannels (connections feed') !! i = Some c'
               /\ filters c' = filters c).
Proof.
  intros input given w'.
  assert (Hframe : forall fid feed i c,
             feeds w !! fid = Some feed ->
             discordChannels (connections feed) !! i = Some c ->
             exists feed' c',
               feeds w' !! fid = Some feed'
               /\ discordChannels (connections feed') !! i = Some c'
               /\ (c' = c \/ c' = apply_set (updateQuery_set (updates given)) c)).
  { intros fid feed i c Hfeed Hc.
    destruct (updateDiscordChannelConnection_connections
                feedId connectionId given w fid feed Hfeed)
      as (feed' & Hfeed' & _ & _ & _ & Hconns).
    exists feed'. destruct (Hconns i c Hc) as [Hi|Hi]; eauto 7. }
  split.
  - intros ->. split; [|split].
    + intros v Hin. apply updateQuery_set_entries in Hin
        as [(k & Hk & _)|[(Hk & _)|(n & _ & _ & Hn & Hne)]].
      * discriminate Hk.
      * discriminate Hk.
      * simpl in Hn. congruence.
    + reflexivity.
    + intros fid feed i c Hfeed Hc.
      destruct (Hframe fid feed i c Hfeed Hc) as (feed' & c' & ? & ? & [->| ->]);
        exists feed'; eexists; (split; [done|]); (split; [done|]); [done|].
      by destruct (apply_set_updateQuery (updates given) c) as (_ & -> & _).
  - intros f -> Hf. split; [|split].
    + intros v Hin. apply updateQuery_set_entries in Hin
        as [(k & Hk & _)|[(_ & Hv & Ht)|(n & Hk & _)]].
      * discriminate Hk.
      * simpl in Hv. congruence.
      * discriminate Hk.
    + unfold updateDiscordChannelConnection, updateQuery_set; simpl.
      by rewrite Hf.
    + intros fid feed i c Hfeed Hc.
      destruct (Hframe fid feed i c Hfeed Hc) as (feed' & c' & ? & ? & [->| ->]);
        exists feed'; eexists; (split; [done|]); (split; [done|]); [done|].
      destruct (apply_set_updateQuery (updates given) c) as (_ & _ & -> & _).
      simpl. by rewrite Hf.
Qed.

(** *** A patch that selects nothing *)

(** What [assertDiscordChannelCanBeUsed] throws when the lookup does not
    answer with a channel of the expected guild. *)
Lemma assertDiscordChannelCanBeUsed_failed
    (accessToken channelId guildId : string) (w : World) :
  ~ verified_in env channelId accessToken guildId ->
  let lookup := canUseChannel env channelId accessToken in
  exists e,
    assertDiscordChannelCanBeUsed env accessToken channelId guildId w
    = (inl e, logged w [CallCanUseChannel channelId accessToken])
    /\ (forall found,
          lookup = inr found ->
          e = DiscordChannelNotOwnedException
                ("Discord channel " +:+ channelId +:+ " is not owned by guild "
                 +:+ guildId))
    /\ (lookup = inl (DiscordAPIError 404) -> e = MissingDiscordChannelException)
    /\ (lookup = inl (DiscordAPIError 403) -> e = DiscordChannelPermissionsException)
    /\ (forall err,
          lookup = inl err ->
          err <> DiscordAPIError 404 -> err <> DiscordAPIError 403 ->
          e = err).
Proof.
  intros Hnot lookup. subst lookup.
  rewrite assertDiscordChannelCanBeUsed_run.
  destruct (canUseChannel env channelId accessToken) as [err|ch] eqn:Hch.
  - assert (Hplain : (forall code, err <> DiscordAPIError code) ->
              exists e,
                (@inl Exception DiscordGuildChannel err,
                 logged w [CallCanUseChannel channelId accessToken])
                = (inl e, logged w [CallCanUseChannel channelId accessToken])
                /\ (forall found, @inl Exception DiscordGuildChannel err = inr found ->
                      e = DiscordChannelNotOwnedException
                            ("Discord channel " +:+ channelId
                             +:+ " is not owned by guild " +:+ guildId))
                /\ (@inl Exception DiscordGuildChannel err = inl (DiscordAPIError 404) ->
                    e = MissingDiscordChannelException)
                /\ (@inl Exception DiscordGuildChannel err = inl (DiscordAPIError 403) ->
                    e = DiscordChannelPermissionsException)
                /\ (forall err0,
                      @inl Exception DiscordGuildChannel err = inl err0 ->
                      err0 <> DiscordAPIError 404 -> err0 <> DiscordAPIError 403 ->
                      e = err0)).
    { intros Hne. exists err. split; [done|]. split; [done|].
      split; [intros [= ->]; by destruct (Hne 404%Z)|].
      split; [intros [= ->]; by destruct (Hne 403%Z)|].
      by intros err0 [= <-] _ _. }
    destruct err; try (apply Hplain; by intros code).
    clear Hplain.
    destruct (Z.eqb_spec statusCode HttpStatus_NOT_FOUND) as [->|H404].
    { exists MissingDiscordChannelException. split; [done|]. split; [done|].
      split; [done|]. split; [done|]. intros err0 [= <-] Hne _. by destruct Hne. }
    destruct (Z.eqb_spec statusCode HttpStatus_FORBIDDEN) as [->|H403].
    { exists DiscordChannelPermissionsException. split; [done|]. split; [done|].
      split; [done|]. split; [done|]. intros err0 [= <-] _ Hne. by destruct Hne. }
    exists (DiscordAPIError statusCode). split; [done|]. split; [done|].
    split; [intros [= ->]; by destruct H404|].
    split; [intros [= ->]; by destruct H403|].
    by intros err0 [= <-] _ _.
  - destruct (String.eqb_spec (channel_guild_id ch) guildId) as [Hg|Hg].
    { destruct Hnot. by exists ch. }
    exists (channelNotOwned channelId guildId). split; [done|].
    split; [done|]. split; [done|]. split; [done|]. done.
Qed.

(** C9: when no stored feed has both the feed id and a connection with the
    connection id, [updateDiscordChannelConnection] never succeeds and
    stores nothing.  When the patch names no channel, or names one that
    passes verification, the conditional update is issued, selects nothing,
    and the operation throws the generic
    [Error "Connection was not successfuly updated. ..."], the only error
    it has for a connection missing after the write, not a failure kind of
    its own.  When the patch names a channel that fails verification, the
    operation throws the verifier's exception instead, and the conditional
    update is never issued. *)
Theorem C9_missing_target_throws_generic_error
    (feedId : string) (connectionId : ObjectId)
    (input : UpdateDiscordChannelConnectionInput) (w : World) :
  selected feedId connectionId w = None ->
  let result := updateDiscordChannelConnection env feedId connectionId input w in
  let named := Updates.details (updates input) ≫= channel in
  (exists err, result.1 = inl err)
  /\ feeds result.2 = feeds w
  /\ ((forall c, named = Some c ->
                 verified_in env (ref_id c) (accessToken input) (guildId input)) ->
      result.1
      = inl (Error "Connection was not successfuly updated. Check insertion statement and schemas are correct.")
      /\ calls result.2
         = calls w
           ++ match named with
              | Some c => [CallCanUseChannel (ref_id c) (accessToken input)]
              | None => []
              end
           ++ [CallFindOneAndUpdate feedId])
  /\ (forall c,
        named = Some c ->
        ~ verified_in env (ref_id c) (accessToken input) (guildId input) ->
        let lookup := canUseChannel env (ref_id c) (accessToken input) in
        calls result.2 = calls w ++ [CallCanUseChannel (ref_id c) (accessToken input)]
        /\ (forall found,
              lookup = inr found ->
              result.1
              = inl (DiscordChannelNotOwnedException
                       ("Discord channel " +:+ ref_id c +:+ " is not owned by guild "
                        +:+ guildId input)))
        /\ (lookup = inl (DiscordAPIError 404) ->
            result.1 = inl MissingDiscordChannelException)
        /\ (lookup = inl (DiscordAPIError 403) ->
            result.1 = inl DiscordChannelPermissionsException)
        /\ (forall err,
              lookup = inl err ->
              err <> DiscordAPIError 404 -> err <> DiscordAPIError 403 ->
              result.1 = inl err)).
Proof.
  intros Hsel result named. subst result named.
  rewrite updateDiscordChannelConnection_run. cbv zeta.
  destruct (Updates.details (updates input) ≫= channel) as [c|].
  - destruct (assertDiscordChannelCanBeUsed env (accessToken input) (ref_id c)
                (guildId input) w) as [[err|ch] w1] eqn:Hv.
    + assert (Hw1 : w1 = logged w [CallCanUseChannel (ref_id c) (accessToken input)]).
      { rewrite assertDiscordChannelCanBeUsed_run in Hv. by injection Hv as _ <-. }
      subst w1. cbn [fst snd].
      split; [by exists err|]. split; [done|]. split.
      * intros Hverified. destruct (Hverified c eq_refl) as (found & Hfound & Hguild).
        rewrite assertDiscordChannelCanBeUsed_run, Hfound in Hv.
        apply String.eqb_eq in Hguild. rewrite Hguild in Hv. discriminate Hv.
      * intros c0 [= <-] Hnot.
        destruct (assertDiscordChannelCanBeUsed_failed (accessToken input) (ref_id c)
                    (guildId input) w Hnot) as (e & He & Hforeign & H404 & H403 & Hrest).
        rewrite Hv in He. injection He as ->.
        split; [done|]. split; [|split; [|split]].
        -- intros found Hfound. f_equal. by apply (Hforeign found).
        -- intros Hlookup. f_equal. by apply H404.
        -- intros Hlookup. f_equal. by apply H403.
        -- intros err0 Hlookup Hne1 Hne2. f_equal. by apply Hrest.
    + apply assertDiscordChannelCanBeUsed_passed in Hv as [Hv ->].
      rewrite selected_logged, Hsel. cbn [fst snd].
      split; [by eexists|]. split; [done|]. split.
      * intros _. split; [done|]. unfold logged; cbn [calls]. by rewrite <- app_assoc.
      * intros c0 [= <-] Hnot. by destruct Hnot.
  - rewrite Hsel. cbn [fst snd].
    split; [by eexists|]. split; [done|]. split; [|done].
    intros _. done.
Qed.

(** *** Destinations stay inside the owning guild *)

Lemma update_first_elem {A} (p : A -> bool) (f : A -> A) (l : list A) (y : A) :
  y ∈ update_first p f l -> y ∈ l \/ exists x, x ∈ l /\ y = f x.
Proof.
  induction l as [|x l IH]; simpl; [by left|].
  destruct (p x).
  - rewrite !elem_of_cons. intros [->|Hy]; [right|left]; eauto.
    exists x. split; [|done]. by left.
  - rewrite !elem_of_cons. intros [->|Hy]; [by left; left|].
    destruct (IH Hy) as [?|(x' & ? & ->)]; [by left; right|].
    right. exists x'. split; [by right|done].
Qed.

Lemma lookup_entry_app (k : string) (l1 l2 : list (string * Value)) :
  lookup_entry k (l1 ++ l2)
  = match lookup_entry k l2 with
    | Some v => Some v
    | None => lookup_entry k l1
    end.
Proof.
  induction l1 as [|[k' v] l1 IH]; simpl.
  - by destruct (lookup_entry k l2).
  - rewrite IH. by destruct (lookup_entry k l2).
Qed.

(** The [channel] entry of a patch is what its [channel] key is bound to. *)
Lemma lookup_entry_channel (u : Updates.t) :
  lookup_entry "channel" (patch_entries u)
  = ChannelPatch_value <$> (Updates.details u ≫= channelKey).
Proof.
  unfold patch_entries. destruct (Updates.details u) as [d|]; [|done].
  unfold Object_entries. rewrite lookup_entry_app.
  assert (lookup_entry "channel"
            (List.filter (fun entry => negb (String.eqb entry.1 "channel"))
               (otherKeys d)) = None) as ->.
  { apply lookup_entry_None. rewrite list_elem_of_fmap.
    intros ([k v] & Hk & Hin). apply list_elem_of_In, filter_In in Hin as [_ Hin].
    simpl in *. subst k. done. }
  simpl. by destruct (channelKey d).
Qed.

(** The channel a patch names is the object its [channel] key is bound
    to; a patch without the key names none. *)
Lemma channel_named (u : Updates.t) (c : ChannelRef) :
  Updates.details u ≫= channel = Some c
  <-> Updates.details u ≫= channelKey = Some (ChannelObject c).
Proof.
  destruct (Updates.details u) as [d|]; simpl; [|done].
  unfold channel. destruct (channelKey d) as [[| |c']|]; split; congruence.
Qed.

Lemma channel_key_missing (u : Updates.t) :
  Updates.details u ≫= channelKey = None -> Updates.details u ≫= channel = None.
Proof.
  destruct (Updates.details u) as [d|]; simpl; [|done].
  unfold channel. by intros ->.
Qed.

(** The test [if (updates.details?.channel)] is the truthiness of what the
    key is bound to. *)
Lemma channel_truthy (u : Updates.t) :
  is_Some (Updates.details u ≫= channel)
  <-> truthy (default Undefined (lookup_entry "channel" (patch_entries u))) = true.
Proof.
  rewrite lookup_entry_channel.
  destruct (Updates.details u) as [d|]; simpl;
    [|split; [by intros [? ?]|done]].
  unfold channel. destruct (channelKey d) as [[| |c]|]; simpl;
    split; try done; by intros [? ?].
Qed.

Lemma destination_patched (u : Updates.t) (c : DiscordChannelConnection) :
  destination (apply_set (updateQuery_set u) c)
  = match Updates.details u ≫= channelKey with
    | Some (ChannelObject ch) => Some (ref_id ch)
    | Some ChannelUndefined | Some ChannelNull => None
    | None => destination c
    end.
Proof.
  unfold destination.
  destruct (apply_set_updateQuery u c) as (_ & _ & _ & ->).
  rewrite lookup_entry_channel.
  by destruct (Updates.details u ≫= channelKey) as [[| |ch]|].
Qed.

Lemma destination_patched_named
    (u : Updates.t) (c : DiscordChannelConnection) (ch : ChannelRef) :
  Updates.details u ≫= channel = Some ch ->
  destination (apply_set (updateQuery_set u) c) = Some (ref_id ch).
Proof. intros Hch. apply channel_named in Hch. by rewrite destination_patched, Hch. Qed.

(** The feed collection after [createDiscordChannelConnection]: untouched,
    or the addressed feed with the new connection appended, and then the
    channel has been verified. *)
Lemma createDiscordChannelConnection_feeds
    (connectionId : ObjectId)
    (feedId name channelId userAccessToken guildId : string) (w : World) :
  let w' :=
    (createDiscordChannelConnection env connectionId feedId name channelId
       userAccessToken guildId w).2 in
  feeds w' = feeds w
  \/ exists feed,
       feeds w !! feedId = Some feed
       /\ feeds w'
          = <[feedId :=
                with_discordChannels feed
                  (discordChannels (connections feed)
                   ++ [newDiscordChannelConnection env connectionId name channelId])]>
              (feeds w)
       /\ verified_in env channelId userAccessToken guildId.
Proof.
  intros w'. subst w'.
  unfold createDiscordChannelConnection, findOneAndUpdate_pushDiscordChannel. run.
  destruct (assertDiscordChannelCanBeUsed _ _ _ _ w) as [[err|ch] w1] eqn:Hv.
  - left. rewrite assertDiscordChannelCanBeUsed_run in Hv. by injection Hv as _ <-.
  - apply assertDiscordChannelCanBeUsed_passed in Hv as [Hv ->]. simpl.
    destruct (feeds w !! feedId) as [feed|] eqn:Hfeed; simpl; [|by left].
    right. exists feed. split; [done|]. split; [|done].
    by destruct (List.find _ _).
Qed.

Lemma updateDiscordChannelConnection_keeps_destinations_owned
    (feedId : string) (connectionId : ObjectId)
    (input : UpdateDiscordChannelConnectionInput) (w : World) :
  addresses_own_guild w feedId (guildId input) ->
  channel_key_is_object (updates input) = true ->
  destinations_owned env (feeds w) ->
  destinations_owned env
    (feeds (updateDiscordChannelConnection env feedId connectionId input w).2).
Proof.
  intros Hguild Hkey Hinv fid feed' c' Hfeed' Hc'.
  destruct (updateDiscordChannelConnection_feeds feedId connectionId input w)
    as [Heq|(feed & Hfeed & Heq & Hverified)];
    rewrite Heq in Hfeed'; [by eapply Hinv|].
  destruct (decide (feedId = fid)) as [->|Hne];
    [|rewrite lookup_insert_ne in Hfeed' by done; by eapply Hinv].
  rewrite lookup_insert_eq in Hfeed'. injection Hfeed' as <-. simpl in *.
  apply update_first_elem in Hc' as [Hc'|(c & Hc & ->)]; [by eapply Hinv|].
  unfold owned_by. rewrite destination_patched.
  unfold channel_key_is_object in Hkey.
  destruct (Updates.details (updates input) ≫= channelKey) as [[| |ch]|] eqn:Hch;
    [done|done| |].
  - exists (ref_id ch), (accessToken input). split; [done|].
    rewrite (Hguild feed Hfeed). apply Hverified. by apply channel_named.
  - by eapply (Hinv fid feed).
Qed.

Lemma createDiscordChannelConnection_keeps_destinations_owned
    (connectionId : ObjectId)
    (feedId name channelId userAccessToken guildId : string) (w : World) :
  addresses_own_guild w feedId guildId ->
  destinations_owned env (feeds w) ->
  destinations_owned env
    (feeds (createDiscordChannelConnection env connectionId feedId name channelId
              userAccessToken guildId w).2).
Proof.
  intros Hguild Hinv fid feed' c' Hfeed' Hc'.
  destruct (createDiscordChannelConnection_feeds connectionId feedId name channelId
              userAccessToken guildId w)
    as [Heq|(feed & Hfeed & Heq & Hverified)];
    rewrite Heq in Hfeed'; [by eapply Hinv|].
  destruct (decide (feedId = fid)) as [->|Hne];
    [|rewrite lookup_insert_ne in Hfeed' by done; by eapply Hinv].
  rewrite lookup_insert_eq in Hfeed'. injection Hfeed' as <-. simpl in *.
  apply elem_of_app in Hc' as [Hc'|Hc']; [by eapply Hinv|].
  apply list_elem_of_singleton in Hc' as ->.
  exists channelId, userAccessToken. split; [|by rewrite (Hguild feed Hfeed)].
  unfold destination, newDiscordChannelConnection; simpl.
  by rewrite lookup_insert_ne, lookup_insert_eq.
Qed.

(** The feed collection after [createDiscordWebhookConnection]: untouched,
    or the addressed feed with a webhook connection appended. *)
Lemma createDiscordWebhookConnection_feeds
    (connectionId : ObjectId) (accessToken feedId guildId name : string)
    (input : WebhookInput.t) (w : World) :
  let w' :=
    (createDiscordWebhookConnection env connectionId accessToken feedId guildId
       name input w).2 in
  feeds w' = feeds w
  \/ exists feed fetched,
       feeds w !! feedId = Some feed
       /\ feeds w'
          = <[feedId :=
                with_discordWebhooks feed
                  (discordWebhooks (connections feed)
                   ++ [newDiscordWebhookConnection connectionId name input fetched])]>
              (feeds w).
Proof.
  intros w'. subst w'.
  unfold createDiscordWebhookConnection, findOneAndUpdate_pushDiscordWebhook. run.
  destruct (getWebhook env (WebhookInput.id input)) as [err|[fetched|]]; simpl;
    [by left| |by left].
  destruct (canBeUsedByBot env fetched); simpl; [|by left].
  destruct (String.eqb (webhook_guild_id fetched) guildId); simpl; [|by left].
  destruct (userManagesGuild env accessToken guildId) as [err|[|]]; simpl;
    [by left| |by left].
  destruct (feeds w !! feedId) as [feed|] eqn:Hfeed; simpl; [|by left].
  right. exists feed, fetched. split; [done|].
  by destruct (List.find _ _).
Qed.

(** A webhook create leaves every feed's guild and channel connections as
    they were. *)
Lemma createDiscordWebhookConnection_keeps_destinations_owned
    (connectionId : ObjectId) (accessToken feedId guildId name : string)
    (input : WebhookInput.t) (w : World) :
  destinations_owned env (feeds w) ->
  destinations_owned env
    (feeds (createDiscordWebhookConnection env connectionId accessToken feedId
              guildId name input w).2).
Proof.
  intros Hinv.
  destruct (createDiscordWebhookConnection_feeds connectionId accessToken feedId
              guildId name input w) as [->|(feed & fetched & Hfeed & ->)]; [done|].
  intros fid feed' c' Hfeed' Hc'.
  destruct (decide (feedId = fid)) as [->|Hne];
    [|rewrite lookup_insert_ne in Hfeed' by done; by eapply Hinv].
  rewrite lookup_insert_eq in Hfeed'. injection Hfeed' as <-. simpl in *.
  by eapply (Hinv fid feed).
Qed.

Lemma insert_same_guild (fs : gmap string Feed) (feedId fid : string) (feed feed' : Feed) :
  fs !! feedId = Some feed -> guild feed' = guild feed ->
  guild <$> (<[feedId := feed']> fs !! fid) = guild <$> (fs !! fid).
Proof.
  intros Hfeed Hguild. destruct (decide (feedId = fid)) as [->|Hne].
  - by rewrite lookup_insert_eq, Hfeed; simpl; rewrite Hguild.
  - by rewrite lookup_insert_ne.
Qed.

(** *** Sequences of calls *)

(** No call creates a feed, deletes one, or changes a feed's guild. *)
Lemma perform_guild (w : World) (op : Operation) (fid : string) :
  guild <$> (feeds (perform env w op) !! fid) = guild <$> (feeds w !! fid).
Proof.
  destruct op as [connectionId feedId name channelId userAccessToken guildId
                 |feedId connectionId input
                 |connectionId accessToken feedId guildId name input]; simpl.
  - destruct (createDiscordChannelConnection_feeds connectionId feedId name
                channelId userAccessToken guildId w) as [->|(feed & Hfeed & -> & _)];
      [done|]. by apply (insert_same_guild _ _ _ feed).
  - destruct (updateDiscordChannelConnection_feeds feedId connectionId input w)
      as [->|(feed & Hfeed & -> & _)]; [done|].
    by apply (insert_same_guild _ _ _ feed).
  - destruct (createDiscordWebhookConnection_feeds connectionId accessToken feedId
                guildId name input w) as [->|(feed & fetched & Hfeed & ->)];
      [done|]. by apply (insert_same_guild _ _ _ feed).
Qed.

(** A call that hands in the guild of its feed still does so after any
    other call. *)
Lemma perform_well_addressed (w : World) (op later : Operation) :
  well_addressed w later -> well_addressed (perform env w op) later.
Proof.
  assert (Hown : forall feedId g,
             addresses_own_guild w feedId g ->
             addresses_own_guild (perform env w op) feedId g).
  { intros feedId g Hg feed' Hfeed'.
    pose proof (perform_guild w op feedId) as Heq.
    rewrite Hfeed' in Heq. simpl in Heq.
    destruct (feeds w !! feedId) as [feed|] eqn:Hfeed; [|done].
    simpl in Heq. injection Heq as ->. by apply Hg. }
  destruct later; simpl; [by apply Hown| |done].
  intros [? ?]. split; [by apply Hown|done].
Qed.

Lemma perform_keeps_destinations_owned (w : World) (op : Operation) :
  well_addressed w op ->
  destinations_owned env (feeds w) ->
  destinations_owned env (feeds (perform env w op)).
Proof.
  destruct op; simpl.
  - apply createDiscordChannelConnection_keeps_destinations_owned.
  - intros [? ?]. by apply updateDiscordChannelConnection_keeps_destinations_owned.
  - intros _. apply createDiscordWebhookConnection_keeps_destinations_owned.
Qed.

(** C4: a patch that names a channel has that channel verified, under the
    caller's credential and against the guild id of the call, before
    anything else happens: the lookup is the first call logged and the
    store call, if any, comes after it; a failed verification is the result
    of the whole operation with nothing stored; and the feed collection
    changes only if the verification has passed.  A patch that names no
    channel goes straight to the store.  The guild id is the one the caller
    hands in: the service does not compare it with the guild of the feed.
    So, for calls that hand in the guild of the feed they address and whose
    [channel] key, where there is one, is an object, an update and a create
    keep every channel connection's destination inside the guild that owns
    its feed, and so does every sequence of such calls of the three
    methods. *)
Theorem C4_new_destination_is_verified_first
    (feedId : string) (connectionId : ObjectId)
    (input : UpdateDiscordChannelConnectionInput) (w : World) :
  let result := updateDiscordChannelConnection env feedId connectionId input w in
  (forall c,
     Updates.details (updates input) ≫= channel = Some c ->
     (calls result.2
      = calls w ++ [CallCanUseChannel (ref_id c) (accessToken input)]
      \/ calls result.2
         = calls w ++ [CallCanUseChannel (ref_id c) (accessToken input);
                       CallFindOneAndUpdate feedId])
     /\ (forall err w1,
           assertDiscordChannelCanBeUsed env (accessToken input) (ref_id c)
             (guildId input) w = (inl err, w1) ->
           result
           = (inl err, logged w [CallCanUseChannel (ref_id c) (accessToken input)]))
     /\ (~ verified_in env (ref_id c) (accessToken input) (guildId input) ->
         exists err,
           result
           = (inl err, logged w [CallCanUseChannel (ref_id c) (accessToken input)]))
     /\ (feeds result.2 <> feeds w ->
         verified_in env (ref_id c) (accessToken input) (guildId input)))
  /\ (Updates.details (updates input) ≫= channel = None ->
      calls result.2 = calls w ++ [CallFindOneAndUpdate feedId])
  /\ (addresses_own_guild w feedId (guildId input) ->
      channel_key_is_object (updates input) = true ->
      destinations_owned env (feeds w) ->
      destinations_owned env (feeds result.2))
  /\ (forall newId name channelId,
        addresses_own_guild w feedId (guildId input) ->
        destinations_owned env (feeds w) ->
        destinations_owned env
          (feeds (createDiscordChannelConnection env newId feedId name channelId
                    (accessToken input) (guildId input) w).2))
  /\ (forall operations,
        Forall (well_addressed w) operations ->
        destinations_owned env (feeds w) ->
        destinations_owned env (feeds (fold_left (perform env) operations w))).
Proof.
  intros result. split; [|split; [|split; [|split]]].
  - intros c Hc. subst result.
    rewrite updateDiscordChannelConnection_run, Hc; simpl.
    rewrite assertDiscordChannelCanBeUsed_run.
    assert (Hpassed :
              forall ch,
                match canUseChannel env (ref_id c) (accessToken input) with
                | inr channel =>
                    if String.eqb (channel_guild_id channel) (guildId input)
                    then inr channel
                    else inl (channelNotOwned (ref_id c) (guildId input))
                | inl (DiscordAPIError statusCode) =>
                    if (statusCode =? HttpStatus_NOT_FOUND)%Z
                    then inl MissingDiscordChannelException
                    else if (statusCode =? HttpStatus_FORBIDDEN)%Z
                    then inl DiscordChannelPermissionsException
                    else inl (DiscordAPIError statusCode)
                | inl err => inl err
                end = inr ch ->
                verified_in env (ref_id c) (accessToken input) (guildId input)).
    { intros ch.
      destruct (canUseChannel env (ref_id c) (accessToken input)) as [e|ch'] eqn:Hch.
      - destruct e; try done.
        destruct (statusCode =? HttpStatus_NOT_FOUND)%Z; [done|].
        by destruct (statusCode =? HttpStatus_FORBIDDEN)%Z.
      - destruct (String.eqb_spec (channel_guild_id ch') (guildId input)); [|done].
        intros _. by exists ch'. }
    set (answer := match canUseChannel env (ref_id c) (accessToken input) with
                   | inl _ => _ | inr _ => _ end) in *.
    split; [|split; [|split]].
    + destruct answer as [err|ch]; simpl; [by left|].
      rewrite selected_logged. right.
      destruct (selected feedId connectionId w); simpl;
        by rewrite <- app_assoc.
    + intros err w1 [= -> <-]. done.
    + intros Hnot. destruct answer as [err|ch]; simpl; [by exists err|].
      destruct Hnot. by apply (Hpassed ch).
    + destruct answer as [err|ch]; simpl; [done|].
      intros _. by apply (Hpassed ch).
  - intros Hc. subst result.
    rewrite updateDiscordChannelConnection_run, Hc; simpl.
    by destruct (selected feedId connectionId w).
  - apply updateDiscordChannelConnection_keeps_destinations_owned.
  - intros newId name channelId.
    apply createDiscordChannelConnection_keeps_destinations_owned.
  - intros operations. revert w result.
    induction operations as [|op operations IH]; intros w _ Hall Hinv; simpl; [done|].
    apply Forall_cons in Hall as [Hop Hall].
    apply IH; [|by apply perform_keeps_destinations_owned].
    eapply Forall_impl; [exact Hall|]. intros later. apply perform_well_addressed.
Qed.

End FeedConnectionsService_properties.

(** *** The properties at work in the concrete deployment *)
Section FeedConnectionsService_scenario.

Import Js FeedConnections Scenario.

Lemma C2_webhook_checks_in_order_witness :
  let create accessToken guildId webhookId :=
    createDiscordWebhookConnection env "connection-2" accessToken "feed-1"
      guildId "by webhook" (webhookInput webhookId) world in
  let user_webhook :=
    {| webhook_id := "webhook-of-user"; webhook_guild_id := "guild-1";
       webhook_token := None |} in
  let webhook1 :=
    {| webhook_id := "webhook-1"; webhook_guild_id := "guild-1";
       webhook_token := Some "token-1" |} in
  create "manager" "guild-1" "webhook-0"
  = (inl (DiscordWebhookNonexistentException "Discord webohok webhook-0 does not exist"),
     logged world [CallGetWebhook "webhook-0"])
  /\ create "manager" "guild-2" "webhook-of-user"
     = (inl (DiscordWebhookInvalidTypeException
               "Discord webhook webhook-of-user is a different type and is not operable by bot to send messages"),
        logged world [CallGetWebhook "webhook-of-user"; CallCanBeUsedByBot user_webhook])
  /\ create "visitor" "guild-2" "webhook-1"
     = (inl (DiscordWebhookNotOwnedException
               "Discord webhook webhook-1 is not owned by guild guild-2"),
        logged world [CallGetWebhook "webhook-1"; CallCanBeUsedByBot webhook1])
  /\ create "visitor" "guild-1" "webhook-1"
     = (inl (DiscordWebhookMissingUserPermException
               "User does not manage guild of webhook webhook webhook-1"),
        logged world [CallGetWebhook "webhook-1"; CallCanBeUsedByBot webhook1;
                      CallUserManagesGuild "visitor" "guild-1"]).
Proof.
  intros create user_webhook webhook1. split; [|split; [|split]].
  - apply (C2_webhook_checks_in_order env "connection-2" "manager" "feed-1"
             "guild-1" "by webhook" (webhookInput "webhook-0") world).
    reflexivity.
  - apply (C2_webhook_checks_in_order env "connection-2" "manager" "feed-1"
             "guild-2" "by webhook" (webhookInput "webhook-of-user") world);
      reflexivity.
  - apply (C2_webhook_checks_in_order env "connection-2" "visitor" "feed-1"
             "guild-2" "by webhook" (webhookInput "webhook-1") world);
      [reflexivity | reflexivity | discriminate].
  - apply (C2_webhook_checks_in_order env "connection-2" "visitor" "feed-1"
             "guild-1" "by webhook" (webhookInput "webhook-1") world);
      reflexivity.
Defined.

Lemma C3_channel_create_failures_witness :
  let create channelId :=
    createDiscordChannelConnection env "connection-2" "feed-1" "second"
      channelId "manager" "guild-1" world in
  let verified channelId := logged world [CallCanUseChannel channelId "manager"] in
  create "channel-2"
  = (inl (DiscordChannelNotOwnedException
            "Discord channel channel-2 is not owned by guild guild-1"),
     verified "channel-2")
  /\ create "channel-0" = (inl MissingDiscordChannelException, verified "channel-0")
  /\ create "channel-private"
     = (inl DiscordChannelPermissionsException, verified "channel-private")
  /\ create "channel-outage" = (inl (DiscordAPIError 500), verified "channel-outage").
Proof.
  intros create verified. split; [|split; [|split]].
  - apply (proj1 (C3_channel_create_failures env "connection-2" "feed-1" "second"
                    "channel-2" "manager" "guild-1" world)
             {| channel_id := "channel-2"; channel_guild_id := "guild-2" |});
      [reflexivity | discriminate].
  - apply (proj1 (proj2 (C3_channel_create_failures env "connection-2" "feed-1"
                           "second" "channel-0" "manager" "guild-1" world))).
    reflexivity.
  - apply (proj1 (proj2 (proj2 (C3_channel_create_failures env "connection-2"
                                  "feed-1" "second" "channel-private" "manager"
                                  "guild-1" world)))).
    reflexivity.
  - apply (proj2 (proj2 (proj2 (C3_channel_create_failures env "connection-2"
                                  "feed-1" "second" "channel-outage" "manager"
                                  "guild-1" world))));
      [reflexivity | discriminate | discriminate].
Defined.

Lemma world_destinations_owned : destinations_owned env (feeds world).
Proof.
  intros feedId feed c Hfeed Hc. unfold world in Hfeed; simpl in Hfeed.
  apply lookup_singleton_Some in Hfeed as [_ <-].
  apply list_elem_of_singleton in Hc as ->.
  exists "channel-1", "manager". split; [reflexivity|].
  by eexists.
Qed.

Lemma world_addresses_own_guild : addresses_own_guild world "feed-1" "guild-1".
Proof.
  intros feed Hfeed. unfold world in Hfeed; simpl in Hfeed.
  by apply lookup_singleton_Some in Hfeed as [_ <-].
Qed.

Lemma C4_new_destination_is_verified_first_witness :
  let move channelId :=
    patch None None
      (Some {| channelKey := Some (ChannelObject {| ref_id := channelId |});
               otherKeys := [] |}) in
  let update input :=
    updateDiscordChannelConnection env "feed-1" "connection-1" input world in
  calls (update (move "channel-1b")).2
  = [CallCanUseChannel "channel-1b" "manager"; CallFindOneAndUpdate "feed-1"]
  /\ verified_in env "channel-1b" "manager" "guild-1"
  /\ update (move "channel-2")
     = (inl (DiscordChannelNotOwnedException
               "Discord channel channel-2 is not owned by guild guild-1"),
        logged world [CallCanUseChannel "channel-2" "manager"])
  /\ calls (update (patch None (Some "renamed") None)).2
     = calls world ++ [CallFindOneAndUpdate "feed-1"]
  /\ destinations_owned env (feeds (update (move "channel-1b")).2)
  /\ destinations_owned env
       (feeds (createDiscordChannelConnection env "connection-2" "feed-1" "second"
                 "channel-1b" "manager" "guild-1" world).2)
  /\ destinations_owned env
       (feeds (fold_left (perform env)
                 [CreateDiscordChannelConnection "connection-2" "feed-1" "second"
                    "channel-1b" "manager" "guild-1";
                  UpdateDiscordChannelConnection "feed-1" "connection-1"
                    (move "channel-2");
                  CreateDiscordWebhookConnection "connection-3" "manager" "feed-1"
                    "guild-1" "by webhook" (webhookInput "webhook-1");
                  UpdateDiscordChannelConnection "feed-1" "connection-2"
                    (move "channel-1")]
                 world)).
Proof.
  intros move update.
  pose proof (C4_new_destination_is_verified_first env "feed-1" "connection-1"
                (move "channel-1b") world) as (Hpatch & _ & Hupdate & Hcreate & Hrun).
  destruct (Hpatch {| ref_id := "channel-1b" |} eq_refl) as (Hcalls & _ & _ & Hchanged).
  pose proof (C4_new_destination_is_verified_first env "feed-1" "connection-1"
                (move "channel-2") world) as (Hrejected & _).
  destruct (Hrejected {| ref_id := "channel-2" |} eq_refl) as (_ & Hfails & _).
  pose proof (C4_new_destination_is_verified_first env "feed-1" "connection-1"
                (patch None (Some "renamed") None) world) as (_ & Hplain & _).
  split.
  { destruct Hcalls as [Hcalls|Hcalls]; [|exact Hcalls].
    vm_compute in Hcalls. discriminate Hcalls. }
  split.
  { apply Hchanged. intros Heq.
    apply (f_equal (fun fs => destination <$> (fs !! "feed-1"
                                ≫= fun feed => head (discordChannels (connections feed)))))
      in Heq.
    vm_compute in Heq. discriminate Heq. }
  split.
  { apply (Hfails (DiscordChannelNotOwnedException
                     "Discord channel channel-2 is not owned by guild guild-1")
             (logged world [CallCanUseChannel "channel-2" "manager"])).
    reflexivity. }
  split; [by apply Hplain|].
  split; [|split].
  - apply Hupdate;
      [exact world_addresses_own_guild | reflexivity | exact world_destinations_owned].
  - apply (Hcreate "connection-2" "second" "channel-1b");
      [exact world_addresses_own_guild | exact world_destinations_owned].
  - apply Hrun; [|exact world_destinations_owned].
    repeat apply Forall_cons_2; try apply Forall_nil_2; simpl;
      try split; try exact world_addresses_own_guild; try reflexivity; exact I.
Defined.

(** Against C4 as the specification words it.  The feed ["feed-1"] belongs
    to ["guild-1"] and its connection delivers to a channel of that guild.
    A call that hands in ["guild-2"] with a channel of ["guild-2"] has the
    channel verified, against ["guild-2"], and succeeds: afterwards the
    connection of a feed of ["guild-1"] delivers to a channel that no
    credential finds in ["guild-1"].  A patch that names the channel the
    connection already delivers to changes no destination, yet the channel
    is verified again.  And a patch whose [channel] key is [null] is
    written without any verification and leaves the connection without a
    destination. *)
Lemma C4_destination_outside_owning_guild_counterexample :
  let move channelId :=
    {| Updates.filters := None; Updates.name := None;
       Updates.details :=
         Some {| channelKey := Some (ChannelObject {| ref_id := channelId |});
                 otherKeys := [] |} |} in
  let moved :=
    updateDiscordChannelConnection env "feed-1" "connection-1"
      {| accessToken := "manager"; updates := move "channel-2";
         guildId := "guild-2" |} world in
  let same :=
    updateDiscordChannelConnection env "feed-1" "connection-1"
      {| accessToken := "manager"; updates := move "channel-1";
         guildId := "guild-1" |} world in
  let cleared :=
    updateDiscordChannelConnection env "feed-1" "connection-1"
      (patch None None (Some {| channelKey := Some ChannelNull; otherKeys := [] |}))
      world in
  destinations_owned env (feeds world)
  /\ calls moved.2
     = [CallCanUseChannel "channel-2" "manager"; CallFindOneAndUpdate "feed-1"]
  /\ (exists feed c,
        feeds moved.2 !! "feed-1" = Some feed
        /\ guild feed = "guild-1"
        /\ discordChannels (connections feed) = [c]
        /\ moved.1 = inr c
        /\ destination c = Some "channel-2"
        /\ forall accessToken, ~ verified_in env "channel-2" accessToken "guild-1")
  /\ ~ destinations_owned env (feeds moved.2)
  /\ destination connection1 = Some "channel-1"
  /\ (exists c, same.1 = inr c /\ destination c = Some "channel-1")
  /\ calls same.2
     = [CallCanUseChannel "channel-1" "manager"; CallFindOneAndUpdate "feed-1"]
  /\ calls cleared.2 = [CallFindOneAndUpdate "feed-1"]
  /\ (exists c, cleared.1 = inr c /\ destination c = None).
Proof.
  intros move moved same cleared.
  assert (Hforeign : forall accessToken,
             ~ verified_in env "channel-2" accessToken "guild-1").
  { intros accessToken (found & Hfound & Hguild).
    simpl in Hfound. injection Hfound as <-. discriminate Hguild. }
  set (c := apply_set (updateQuery_set (move "channel-2")) connection1).
  set (feed := with_discordChannels feed1 [c]).
  assert (Hfeed : feeds moved.2 !! "feed-1" = Some feed) by reflexivity.
  assert (Hdest : destination c = Some "channel-2") by reflexivity.
  split; [exact world_destinations_owned|].
  split; [reflexivity|].
  split.
  { exists feed, c. split; [exact Hfeed|]. split; [reflexivity|].
    split; [reflexivity|]. split; [reflexivity|]. split; [exact Hdest|].
    exact Hforeign. }
  split.
  { intros Howned.
    destruct (Howned "feed-1" feed c Hfeed) as (channelId & accessToken & Hc & Hv).
    { apply list_elem_of_singleton. reflexivity. }
    rewrite Hdest in Hc. injection Hc as <-.
    exact (Hforeign accessToken Hv). }
  split; [reflexivity|].
  split; [eexists; split; reflexivity|].
  split; [reflexivity|].
  split; [reflexivity|].
  eexists. split; reflexivity.
Qed.

Lemma C5_absent_fields_keep_stored_value_witness :
  let input :=
    patch None None
      (Some {| channelKey := None; otherKeys := [("content", Str "goodbye")] |}) in
  let w' :=
    (updateDiscordChannelConnection env "feed-1" "connection-1" input world).2 in
  (forall path v,
     (path, v) ∈ updateQuery_set (updates input) ->
     path = "connections.discordChannels.$.details.content")
  /\ exists feed' c',
       feeds w' !! "feed-1" = Some feed'
       /\ discordChannels (connections feed') !! 0%nat = Some c'
       /\ filters c' = filters connection1
       /\ name c' = "first"
       /\ details c' !! "channel" = Some (Obj [("id", Str "channel-1")])
       /\ details c' !! "embeds" = Some (Arr []).
Proof.
  intros input w'.
  pose proof (C5_absent_fields_keep_stored_value env "feed-1" "connection-1"
                input world) as [Hdoc Hframe].
  split.
  - intros path v Hin.
    destruct (Hdoc path v Hin) as [(k & -> & Hk)|[[_ Hf]|(n & _ & _ & Hn)]];
      [|discriminate Hf|discriminate Hn].
    apply list_elem_of_singleton in Hk. by injection Hk as -> _.
  - destruct (Hframe "feed-1" feed1 eq_refl) as (feed' & Hfeed' & _ & _ & _ & Hconns).
    destruct (Hconns 0%nat connection1 eq_refl)
      as (c' & Hc' & _ & Hfilters & Hname & Hdetails).
    exists feed', c'. split; [exact Hfeed'|]. split; [exact Hc'|].
    split; [by apply Hfilters|]. split; [by apply Hname|].
    split; (rewrite Hdetails; [reflexivity|]);
      (intros Hin; apply list_elem_of_singleton in Hin; discriminate Hin).
Defined.

Lemma C9_missing_target_throws_generic_error_witness :
  let update input :=
    updateDiscordChannelConnection env "feed-1" "connection-9" input world in
  let move channelId :=
    patch None None
      (Some {| channelKey := Some (ChannelObject {| ref_id := channelId |});
               otherKeys := [] |}) in
  selected "feed-1" "connection-9" world = None
  /\ update (patch None (Some "renamed") None)
     = (inl (Error "Connection was not successfuly updated. Check insertion statement and schemas are correct."),
        logged world [CallFindOneAndUpdate "feed-1"])
  /\ update (move "channel-1b")
     = (inl (Error "Connection was not successfuly updated. Check insertion statement and schemas are correct."),
        logged world [CallCanUseChannel "channel-1b" "manager";
                      CallFindOneAndUpdate "feed-1"])
  /\ (update (move "channel-0")).1 = inl MissingDiscordChannelException
  /\ calls (update (move "channel-0")).2 = [CallCanUseChannel "channel-0" "manager"].
Proof.
  intros update move.
  assert (Hsame : forall r1 r2 : (Exception + DiscordChannelConnection) * World,
             r1.1 = r2.1 -> feeds r1.2 = feeds r2.2 -> calls r1.2 = calls r2.2 ->
             r1 = r2).
  { intros [a1 [f1 c1]] [a2 [f2 c2]]; simpl. by intros -> -> ->. }
  split; [reflexivity|].
  destruct (C9_missing_target_throws_generic_error env "feed-1" "connection-9"
              (patch None (Some "renamed") None) world eq_refl)
    as (_ & Hfeeds1 & Hgeneric1 & _).
  destruct (C9_missing_target_throws_generic_error env "feed-1" "connection-9"
              (move "channel-1b") world eq_refl)
    as (_ & Hfeeds2 & Hgeneric2 & _).
  destruct (C9_missing_target_throws_generic_error env "feed-1" "connection-9"
              (move "channel-0") world eq_refl)
    as (_ & _ & _ & Hfailed).
  split; [|split].
  - destruct Hgeneric1 as [Hres Hcalls]; [intros c Hc; discriminate Hc|].
    apply Hsame; [exact Hres | exact Hfeeds1 | exact Hcalls].
  - destruct Hgeneric2 as [Hres Hcalls].
    { intros c Hc. injection Hc as <-. by eexists. }
    apply Hsame; [exact Hres | exact Hfeeds2 | exact Hcalls].
  - destruct (Hfailed {| ref_id := "channel-0" |} eq_refl)
      as (Hcalls & _ & Hmissing & _).
    { intros (found & Hfound & _). discriminate Hfound. }
    split; [by apply Hmissing | exact Hcalls].
Defined.

(** Against C9 as it is worded (every call whose target is missing throws
    the generic error): no connection ["connection-9"] is stored, and a
    patch for it that names a channel of another guild is answered with
    [DiscordChannelNotOwnedException]; the channel lookup is the only call
    made, so the conditional update is never issued. *)
Lemma C9_missing_target_foreign_channel_counterexample :
  let input :=
    patch None None
      (Some {| channelKey := Some (ChannelObject {| ref_id := "channel-2" |});
               otherKeys := [] |}) in
  let result :=
    updateDiscordChannelConnection env "feed-1" "connection-9" input world in
  selected "feed-1" "connection-9" world = None
  /\ result.1
     = inl (DiscordChannelNotOwnedException
              "Discord channel channel-2 is not owned by guild guild-1")
  /\ result.1
     <> inl (Error "Connection was not successfuly updated. Check insertion statement and schemas are correct.")
  /\ calls result.2 = [CallCanUseChannel "channel-2" "manager"]
  /\ CallFindOneAndUpdate "feed-1" ∉ calls result.2.
Proof.
  intros input result.
  split; [reflexivity|]. split; [reflexivity|].
  split; [discriminate|]. split; [reflexivity|].
  intros Hin. apply list_elem_of_singleton in Hin. discriminate Hin.
Qed.

Lemma C10_falsy_name_and_filters_are_skipped_witness :
  let update f n :=
    updateDiscordChannelConnection env "feed-1" "connection-1" (patch f n None)
      world in
  update None (Some "") = update None None
  /\ update (Some Null) None = update None None
  /\ (exists feed' c',
        feeds (update None (Some "")).2 !! "feed-1" = Some feed'
        /\ discordChannels (connections feed') !! 0%nat = Some c'
        /\ name c' = "first")
  /\ (exists feed' c',
        feeds (update (Some Null) None).2 !! "feed-1" = Some feed'
        /\ discordChannels (connections feed') !! 0%nat = Some c'
        /\ filters c' = Some (Obj [("expression", Obj [])])).
Proof.
  intros update.
  destruct (C10_falsy_name_and_filters_are_skipped env "feed-1" "connection-1"
              "manager" "guild-1" None (Some "") None world) as [Hname _].
  destruct (Hname eq_refl) as (_ & Hsame_name & Hkept_name).
  destruct (C10_falsy_name_and_filters_are_skipped env "feed-1" "connection-1"
              "manager" "guild-1" (Some Null) None None world) as [_ Hfilters].
  destruct (Hfilters Null eq_refl eq_refl) as (_ & Hsame_filters & Hkept_filters).
  split; [exact Hsame_name|]. split; [exact Hsame_filters|].
  split.
  - exact (Hkept_name "feed-1" feed1 0%nat connection1 eq_refl eq_refl).
  - exact (Hkept_filters "feed-1" feed1 0%nat connection1 eq_refl eq_refl).
Defined.

End FeedConnectionsService_scenario.

(** * Properties of [DeliveryRecordService] *)
Section DeliveryRecordService_properties.

Import DeliveryRecords.
Local Open Scope Z_scope.

Lemma step_none_from_the_future (db : Db) (e : Event) :
  none_from_the_future db -> none_from_the_future (step db e).
Proof.
  unfold none_from_the_future. intros Hdb. destruct e as [feedId st|ms]; simpl.
  - apply Forall_app. split; [done|].
    apply Forall_singleton. destruct st; simpl; lia.
  - eapply Forall_impl; [done|]. simpl. lia.
Qed.

Lemma run_none_from_the_future (start : Z) (events : list Event) :
  none_from_the_future (run start events).
Proof.
  unfold run.
  enough (forall db, none_from_the_future db ->
                     none_from_the_future (fold_left step events db)) as H.
  { apply H. by apply Forall_nil. }
  induction events as [|e events IH]; intros db Hdb; simpl; [done|].
  by apply IH, step_none_from_the_future.
Qed.

Lemma filter_length_ext {A} (p q : A -> bool) (l : list A) :
  Forall (fun x => p x = q x) l ->
  length (List.filter p l) = length (List.filter q l).
Proof.
  induction 1 as [|x l Hx _ IH]; simpl; [done|].
  rewrite Hx. destruct (q x); simpl; congruence.
Qed.

(** C6: [countDeliveriesInPastTimeframe] is the number of records of the
    feed with status [Sent] or [Rejected] created within
    [[now - secondsInPast, now]], on every table that holds no record dated
    after the clock, as every table is that [store] has filled while time
    went by; a [Failed] record and a record created before the start of
    the window are never among the counted ones. *)
Theorem C6_countDeliveriesInPastTimeframe_counts_window
    (db : Db) (feedId : string) (secondsInPast : Z) :
  (none_from_the_future db ->
   countDeliveriesInPastTimeframe feedId secondsInPast db
   = countRecent_spec feedId secondsInPast db)
  /\ (forall r, r ∈ records db -> status r = Failed ->
                r ∉ List.filter (matches feedId (cutoff db secondsInPast)) (records db))
  /\ (forall r, r ∈ records db ->
                created_at r < now db - secondsInPast * 1000 ->
                r ∉ List.filter (matches feedId (cutoff db secondsInPast)) (records db))
  /\ (forall start events, none_from_the_future (run start events)).
Proof.
  split; [|split; [|split]].
  - intros Hdb. unfold countDeliveriesInPastTimeframe, countRecent_spec.
    apply filter_length_ext.
    eapply Forall_impl; [exact Hdb|].
    intros r Hr. unfold matches, in_window, cutoff. simpl in Hr.
    replace (created_at r <=? now db) with true by (symmetry; by apply Z.leb_le).
    rewrite andb_true_r. by destruct (status r).
  - intros r _ Hfailed Hin.
    apply list_elem_of_In, filter_In in Hin as [_ Hm].
    unfold matches in Hm. rewrite Hfailed in Hm. simpl in Hm.
    by rewrite andb_false_r in Hm.
  - intros r _ Hold Hin.
    apply list_elem_of_In, filter_In in Hin as [_ Hm].
    unfold matches, cutoff in Hm.
    apply andb_prop in Hm as [_ Hm]. apply Z.leb_le in Hm. lia.
  - apply run_none_from_the_future.
Qed.

End DeliveryRecordService_properties.

Lemma C6_countDeliveriesInPastTimeframe_counts_window_witness :
  let db := DeliveryRecords.run Scenario.started Scenario.deliveries in
  DeliveryRecords.countDeliveriesInPastTimeframe "feed-1" 60 db = 2%nat
  /\ DeliveryRecords.countRecent_spec "feed-1" 60 db = 2%nat
  /\ (forall r, DeliveryRecords.records db !! 4%nat = Some r ->
                DeliveryRecords.status r = DeliveryRecords.Failed
                /\ r ∉ List.filter
                         (DeliveryRecords.matches "feed-1" (DeliveryRecords.cutoff db 60))
                         (DeliveryRecords.records db))
  /\ (forall r, DeliveryRecords.records db !! 0%nat = Some r ->
                r ∉ List.filter
                      (DeliveryRecords.matches "feed-1" (DeliveryRecords.cutoff db 60))
                      (DeliveryRecords.records db)).
Proof.
  intros db.
  destruct (C6_countDeliveriesInPastTimeframe_counts_window db "feed-1" 60)
    as (Hcount & Hfailed & Hold & Hrun).
  specialize (Hcount (Hrun Scenario.started Scenario.deliveries)).
  split; [reflexivity|]. split; [rewrite <- Hcount; reflexivity|]. split.
  - intros r Hr. assert (DeliveryRecords.status r = DeliveryRecords.Failed) as Hstatus
      by (injection Hr as <-; reflexivity).
    split; [exact Hstatus|].
    apply Hfailed; [|exact Hstatus]. by eapply list_elem_of_lookup_2.
  - intros r Hr. apply Hold; [by eapply list_elem_of_lookup_2|].
    injection Hr as <-. reflexivity.
Defined.

(** * Properties of [FeedsService] *)
Section FeedsService_properties.

Import FeedsService.
Local Open Scope Z_scope.

(** *** The cases of [feeds.service.spec.ts], run on the model *)

(** "returns feed status failed correctly": the fail record is dated
    1 February 1990, the test runs at any time from 2020 on. *)
Lemma findFeeds_returns_feed_status_failed_correctly
    (now : Z) (c : Collections) (feed : Feed) (r : FailRecord) :
  failRecords c !! url feed = Some r ->
  failedAt r = 633830400000 ->
  1577836800000 <= now ->
  status (detailed now c feed) = FAILED.
Proof.
  intros Hr Hat Hnow. unfold detailed, feedStatus, age, hours, thresholdHours; simpl.
  rewrite Hr, Hat. destruct (Z.leb_spec (18 * 3600 * 1000) (now - 633830400000)); [done|lia].
Qed.

(** "returns feed status OK correctly": no fail record at all. *)
Lemma findFeeds_returns_feed_status_OK_correctly
    (now : Z) (c : Collections) (feed : Feed) :
  failRecords c !! url feed = None ->
  status (detailed now c feed) = OK.
Proof. intros Hr. unfold detailed; simpl. by rewrite Hr. Qed.

(** "does not return failed status for fail records within the past 18
    hours": the fail record is two hours old. *)
Lemma findFeeds_does_not_return_failed_status_within_18_hours
    (now : Z) (c : Collections) (feed : Feed) (r : FailRecord) :
  failRecords c !! url feed = Some r ->
  failedAt r = now - hours 2 ->
  status (detailed now c feed) = OK.
Proof.
  intros Hr Hat. unfold detailed, feedStatus, age, hours, thresholdHours in *; simpl.
  rewrite Hr, Hat.
  destruct (Z.leb_spec (18 * 3600 * 1000) (now - (now - 2 * 3600 * 1000))); [lia|done].
Qed.

(** "returns undefined if no feed is found" *)
Lemma updateOne_returns_undefined_if_no_feed_is_found
    (now : Z) (c : Collections) (feedId : string) :
  feeds c !! feedId = None ->
  (updateOne now feedId {| patch_text := Some "hello"; patch_webhook := None |} c).1
  = None.
Proof. intros Hnone. unfold updateOne. by rewrite Hnone. Qed.

(** "updates the text", "returns the updated feed" *)
Lemma updateOne_updates_the_text
    (now : Z) (c : Collections) (feedId : string) (feed : Feed) :
  feeds c !! feedId = Some feed ->
  let result :=
    updateOne now feedId {| patch_text := Some "my-new-text"; patch_webhook := None |} c in
  text <$> (feeds result.2 !! feedId) = Some "my-new-text"
  /\ (text ∘ entity) <$> result.1 = Some "my-new-text".
Proof.
  intros Hfeed result. subst result. unfold updateOne. rewrite Hfeed; simpl.
  by rewrite lookup_insert_eq.
Qed.

(** "updates webhook id when no webhook previously existed", "does not
    persist any old webhook data if webhook is overwritten", "returns the
    new webhook id after a webhook update" *)
Lemma updateOne_updates_webhook_id
    (now : Z) (c : Collections) (feedId : string) (feed : Feed) :
  feeds c !! feedId = Some feed ->
  let result :=
    updateOne now feedId
      {| patch_text := None;
         patch_webhook := Some {| webhook_id := Some "my-new-webhook-id" |} |} c in
  webhook <$> (feeds result.2 !! feedId) = Some (Some {| id := "my-new-webhook-id" |})
  /\ (webhook ∘ entity) <$> result.1 = Some (Some {| id := "my-new-webhook-id" |}).
Proof.
  intros Hfeed result. subst result. unfold updateOne. rewrite Hfeed; simpl.
  by rewrite lookup_insert_eq.
Qed.

(** "removes the webhook object if webhook id is empty" *)
Lemma updateOne_removes_the_webhook_object_if_webhook_id_is_empty
    (now : Z) (c : Collections) (feedId : string) (feed : Feed) :
  feeds c !! feedId = Some feed ->
  webhook <$>
    (feeds (updateOne now feedId
              {| patch_text := None;
                 patch_webhook := Some {| webhook_id := Some "" |} |} c).2 !! feedId)
  = Some None.
Proof.
  intros Hfeed. unfold updateOne. rewrite Hfeed; simpl.
  by rewrite lookup_insert_eq.
Qed.

(** "does not update the text if undefined is passed" *)
Lemma updateOne_does_not_update_the_text_if_undefined_is_passed
    (now : Z) (c : Collections) (feedId : string) (feed : Feed) :
  feeds c !! feedId = Some feed ->
  text <$>
    (feeds (updateOne now feedId {| patch_text := None; patch_webhook := None |} c).2
       !! feedId)
  = Some (text feed).
Proof.
  intros Hfeed. unfold updateOne. rewrite Hfeed; simpl.
  by rewrite lookup_insert_eq.
Qed.

(** "throws if the feed does not exist", "deletes the fail record",
    "returns status ok" *)
Lemma refresh_cases
    (now : Z) (c : Collections) (feedId : string) :
  (feeds c !! feedId = None -> exists failure, (refresh now feedId c).1 = inl failure)
  /\ (forall feed,
        feeds c !! feedId = Some feed ->
        failRecords (refresh now feedId c).2 !! url feed = None
        /\ (refresh now feedId c).1 = inr {| entity := feed; status := OK |}).
Proof.
  unfold refresh. split.
  - intros ->. by eexists.
  - intros feed ->. simpl. unfold detailed; simpl. by rewrite lookup_delete_eq.
Qed.

(** *** The properties *)

(** C1, with the side of the threshold that the tests fix: the derived
    status of a feed is [FAILED] exactly when a fail record is stored under
    the feed's URL and its age has reached the threshold of 18 hours, and
    [OK] otherwise; a record that failed 2 hours ago gives [OK] and one
    that failed 19 hours ago gives [FAILED]. *)
Theorem C1_status_failed_from_threshold_on
    (now : Z) (c : Collections) (feed : Feed) :
  (status (detailed now c feed) = FAILED
   <-> exists r, failRecords c !! url feed = Some r /\ hours 18 <= age now r)
  /\ (status (detailed now c feed) = OK
      <-> forall r, failRecords c !! url feed = Some r -> age now r < hours 18)
  /\ (forall r, failRecords c !! url feed = Some r ->
                (failedAt r = now - hours 2 -> status (detailed now c feed) = OK)
                /\ (failedAt r = now - hours 19 ->
                    status (detailed now c feed) = FAILED)).
Proof.
  unfold detailed, feedStatus, age, thresholdHours; simpl.
  destruct (failRecords c !! url feed) as [r|].
  - destruct (Z.leb_spec (hours 18) (now - failedAt r)) as [Hle|Hlt].
    + split; [|split].
      * split; [eauto|done].
      * split; [done|]. intros H. specialize (H r eq_refl). lia.
      * intros r' [= <-]. unfold hours in *. split; [lia|done].
    + split; [|split].
      * split; [done|]. intros (r' & [= <-] & ?). lia.
      * split; [|done]. by intros _ r' [= <-].
      * intros r' [= <-]. unfold hours in *. split; [done|lia].
  - split; [|split]; [split; [done|by intros (? & ? & _)]|done|done].
Qed.

(** C7: [updateOne] returns [undefined] and changes nothing when no feed
    has the id.  Otherwise it returns the stored, updated feed: its [text]
    is the patch's when the patch defines one and the old one when not; an
    empty webhook id leaves the feed with no webhook object at all; a patch
    without a webhook id leaves the stored webhook as it was. *)
Theorem C7_updateOne_merges_patch
    (now : Z) (feedId : string) (patch : UpdateFeedInput) (c : Collections) :
  let result := updateOne now feedId patch c in
  (feeds c !! feedId = None -> result = (None, c))
  /\ (forall feed,
        feeds c !! feedId = Some feed ->
        exists updated,
          result.1 = Some updated
          /\ feeds result.2 !! feedId = Some (entity updated)
          /\ (forall t, patch_text patch = Some t -> text (entity updated) = t)
          /\ (patch_text patch = None -> text (entity updated) = text feed)
          /\ (patch_webhook patch ≫= webhook_id = Some "" ->
              webhook (entity updated) = None)
          /\ (patch_webhook patch ≫= webhook_id = None ->
              webhook (entity updated) = webhook feed)).
Proof.
  intros result. subst result. unfold updateOne. split.
  - by intros ->.
  - intros feed ->. eexists. split; [done|]. simpl.
    rewrite lookup_insert_eq. split; [done|].
    split; [by intros t ->|]. split; [by intros ->|].
    split; by intros ->.
Qed.

(** C8: [refresh] fails when no feed has the id.  When one has, the fail
    record stored under its URL is gone afterwards, whatever its age, the
    other fail records and the feeds are as before, and the feed comes back
    with status [OK]; this holds just as well when the status was [OK]
    already. *)
Theorem C8_refresh_clears_failure
    (now : Z) (feedId : string) (c : Collections) :
  let result := refresh now feedId c in
  (feeds c !! feedId = None ->
     exists failure, result = (inl failure, c))
  /\ (forall feed,
        feeds c !! feedId = Some feed ->
        result.1 = inr {| entity := feed; status := OK |}
        /\ failRecords result.2 !! url feed = None
        /\ (forall u, u <> url feed ->
                      failRecords result.2 !! u = failRecords c !! u)
        /\ feeds result.2 = feeds c)
  /\ (forall feed,
        feeds c !! feedId = Some feed ->
        status (detailed now c feed) = OK ->
        result.1 = inr (detailed now c feed)).
Proof.
  intros result. subst result. unfold refresh. split; [|split].
  - intros ->. by eexists.
  - intros feed ->. simpl. unfold detailed; simpl.
    rewrite lookup_delete_eq. split; [done|]. split; [done|].
    split; [|done]. intros u Hu. by rewrite lookup_delete_ne.
  - intros feed -> Hok. simpl. unfold detailed in *; simpl in *.
    rewrite lookup_delete_eq. simpl. by rewrite Hok.
Qed.

End FeedsService_properties.

(** Against C1 as the specification words it ([FAILED] while the age is
    below the threshold): with a fail record stored under the feed's URL
    that failed 2 hours ago, the status is [OK], not [FAILED]; with one that
    failed 19 hours ago, the status is [FAILED], not [OK]. *)
Lemma C1_status_failed_below_threshold_counterexample :
  let current := Scenario.started in
  let derived failedHoursAgo :=
    FeedsService.status
      (FeedsService.detailed current (Scenario.collections current failedHoursAgo)
         Scenario.oldFeed) in
  (exists r,
     FeedsService.failRecords (Scenario.collections current 2)
       !! FeedsService.url Scenario.oldFeed = Some r
     /\ FeedsService.failedAt r = (current - FeedsService.hours 2)%Z
     /\ (FeedsService.age current r < FeedsService.hours 18)%Z)
  /\ derived 2%Z <> FeedsService.FAILED
  /\ derived 19%Z <> FeedsService.OK
  /\ FeedsService.feedStatus_spec current
       (FeedsService.failRecords (Scenario.collections current 2)
          !! FeedsService.url Scenario.oldFeed) = FeedsService.FAILED
  /\ FeedsService.feedStatus_spec current
       (FeedsService.failRecords (Scenario.collections current 19)
          !! FeedsService.url Scenario.oldFeed) = FeedsService.OK.
Proof.
  intros current derived. split; [|split; [|split; [|split]]].
  - eexists. split; [reflexivity|]. split; reflexivity.
  - vm_compute. discriminate.
  - vm_compute. discriminate.
  - reflexivity.
  - reflexivity.
Qed.

Lemma C1_status_failed_from_threshold_on_witness :
  let current := Scenario.started in
  let derived failedHoursAgo :=
    FeedsService.status
      (FeedsService.detailed current (Scenario.collections current failedHoursAgo)
         Scenario.oldFeed) in
  derived 2%Z = FeedsService.OK /\ derived 19%Z = FeedsService.FAILED.
Proof.
  intros current derived. split.
  - destruct (C1_status_failed_from_threshold_on current
                (Scenario.collections current 2) Scenario.oldFeed) as (_ & _ & H).
    by eapply (H _ eq_refl).
  - destruct (C1_status_failed_from_threshold_on current
                (Scenario.collections current 19) Scenario.oldFeed) as (_ & _ & H).
    by eapply (H _ eq_refl).
Defined.

Lemma C7_updateOne_merges_patch_witness :
  let c := Scenario.collections Scenario.started 2 in
  let update feedId patch :=
    FeedsService.updateOne Scenario.started feedId patch c in
  let clear_webhook :=
    {| FeedsService.patch_text := None;
       FeedsService.patch_webhook := Some {| FeedsService.webhook_id := Some "" |} |} in
  let new_text :=
    {| FeedsService.patch_text := Some "hello";
       FeedsService.patch_webhook := None |} in
  update "feed-0" new_text = (None, c)
  /\ (exists updated,
        (update "feed-1" clear_webhook).1 = Some updated
        /\ FeedsService.webhook (FeedsService.entity updated) = None
        /\ FeedsService.text (FeedsService.entity updated) = "old-text")
  /\ (exists updated,
        (update "feed-1" new_text).1 = Some updated
        /\ FeedsService.text (FeedsService.entity updated) = "hello"
        /\ FeedsService.webhook (FeedsService.entity updated)
           = Some {| FeedsService.id := "old-webhook-id" |}).
Proof.
  intros c update clear_webhook new_text. split; [|split].
  - apply (C7_updateOne_merges_patch Scenario.started "feed-0" new_text c).
    reflexivity.
  - destruct (C7_updateOne_merges_patch Scenario.started "feed-1" clear_webhook c)
      as [_ H].
    destruct (H Scenario.oldFeed eq_refl) as (updated & Hres & _ & _ & Htext & Hgone & _).
    exists updated. split; [exact Hres|]. split; [by apply Hgone | by apply Htext].
  - destruct (C7_updateOne_merges_patch Scenario.started "feed-1" new_text c)
      as [_ H].
    destruct (H Scenario.oldFeed eq_refl) as (updated & Hres & _ & Htext & _ & _ & Hkept).
    exists updated. split; [exact Hres|]. split; [by apply Htext | by apply Hkept].
Defined.

Lemma C8_refresh_clears_failure_witness :
  let stale := Scenario.collections Scenario.started 19 in
  let fresh := Scenario.collections Scenario.started 2 in
  (exists failure,
     FeedsService.refresh Scenario.started "feed-0" stale = (inl failure, stale))
  /\ (FeedsService.refresh Scenario.started "feed-1" stale).1
     = inr {| FeedsService.entity := Scenario.oldFeed;
              FeedsService.status := FeedsService.OK |}
  /\ FeedsService.failRecords (FeedsService.refresh Scenario.started "feed-1" stale).2
       !! "https://example.com/feed" = None
  /\ (FeedsService.refresh Scenario.started "feed-1" fresh).1
     = inr (FeedsService.detailed Scenario.started fresh Scenario.oldFeed).
Proof.
  intros stale fresh.
  destruct (C8_refresh_clears_failure Scenario.started "feed-0" stale) as (Hmissing & _).
  destruct (C8_refresh_clears_failure Scenario.started "feed-1" stale) as (_ & Hstale & _).
  destruct (C8_refresh_clears_failure Scenario.started "feed-1" fresh) as (_ & _ & Hfresh).
  destruct (Hstale Scenario.oldFeed eq_refl) as (Hok & Hgone & _).
  split; [by apply Hmissing|]. split; [exact Hok|]. split; [exact Hgone|].
  apply Hfresh; reflexivity.
Defined.

(** * Further properties of [FeedConnectionsService] *)
Section FeedConnectionsService_further.

Import Js FeedConnections.
Local Open Scope async_scope.

Variable env : Env.

Ltac run := unfold bind, try_catch, await, log, settle, throw, ret, logged; simpl.

Lemma has_id_fresh (connectionId : ObjectId) (l : list DiscordChannelConnection) :
  connectionId ∉ id <$> l -> Forall (fun c => has_id connectionId c = false) l.
Proof.
  intros Hfresh. apply Forall_forall. intros c Hc. unfold has_id.
  apply String.eqb_neq. intros Heq. apply Hfresh.
  apply list_elem_of_fmap. by exists c.
Qed.

Lemma find_app_fresh {A} (p : A -> bool) (l : list A) (x : A) :
  Forall (fun y => p y = false) l -> p x = true -> List.find p (l ++ [x]) = Some x.
Proof.
  induction 1 as [|y l Hy _ IH]; intros Hx; simpl.
  - by rewrite Hx.
  - rewrite Hy. by apply IH.
Qed.

(** [createDiscordChannelConnection], step by step. *)
Lemma createDiscordChannelConnection_run
    (connectionId : ObjectId)
    (feedId name channelId userAccessToken guildId : string) (w : World) :
  createDiscordChannelConnection env connectionId feedId name channelId
    userAccessToken guildId w =
  match assertDiscordChannelCanBeUsed env userAccessToken channelId guildId w with
  | (inl err, w1) => (inl err, w1)
  | (inr _, w1) =>
      match feeds w1 !! feedId with
      | Some feed =>
          let updated :=
            with_discordChannels feed
              (discordChannels (connections feed)
               ++ [newDiscordChannelConnection env connectionId name channelId]) in
          (match List.find (has_id connectionId)
                             (discordChannels (connections updated)) with
           | Some c => inr c
           | None => inl notCreated
           end,
           store feedId updated (logged w1 [CallFindOneAndUpdate feedId]))
      | None => (inl notCreated, logged w1 [CallFindOneAndUpdate feedId])
      end
  end.
Proof.
  unfold createDiscordChannelConnection, findOneAndUpdate_pushDiscordChannel. run.
  destruct (assertDiscordChannelCanBeUsed _ _ _ _ w) as [[err|ch] w1]; simpl; [done|].
  destruct (feeds w1 !! feedId) as [feed|]; simpl; [|done].
  by destruct (List.find _ _).
Qed.

Lemma assertDiscordChannelCanBeUsed_verified
    (accessToken channelId guildId : string) (w : World) :
  verified_in env channelId accessToken guildId ->
  exists channel,
    assertDiscordChannelCanBeUsed env accessToken channelId guildId w
    = (inr channel, logged w [CallCanUseChannel channelId accessToken]).
Proof.
  intros (channel & Hch & Hguild). exists channel.
  rewrite assertDiscordChannelCanBeUsed_run, Hch.
  apply String.eqb_eq in Hguild. by rewrite Hguild.
Qed.

(** X1: a channel connection created under a fresh identifier, for an
    existing feed and a channel of the requested guild, is returned as it
    was built (the given name, the given channel, no embeds, no filters),
    is appended to the feed's channel connections, and is the connection
    that a lookup by its identifier reads back; the channel lookup and then
    the store are the two calls made. *)
Theorem createDiscordChannelConnection_round_trip
    (connectionId : ObjectId)
    (feedId name channelId userAccessToken guildId : string)
    (w : World) (feed : Feed) :
  verified_in env channelId userAccessToken guildId ->
  feeds w !! feedId = Some feed ->
  connectionId ∉ channel_ids feed ->
  let result :=
    createDiscordChannelConnection env connectionId feedId name channelId
      userAccessToken guildId w in
  let created := newDiscordChannelConnection env connectionId name channelId in
  result.1 = inr created
  /\ calls result.2
     = calls w ++ [CallCanUseChannel channelId userAccessToken;
                   CallFindOneAndUpdate feedId]
  /\ feeds result.2
     = <[feedId := with_discordChannels feed
                     (discordChannels (connections feed) ++ [created])]> (feeds w)
  /\ (exists stored,
        feeds result.2 !! feedId = Some stored
        /\ List.find (has_id connectionId) (discordChannels (connections stored))
           = Some created
        /\ last (discordChannels (connections stored)) = Some created)
  /\ id created = connectionId
  /\ FeedConnections.name created = name
  /\ destination created = Some channelId
  /\ details created !! "embeds" = Some (Arr [])
  /\ filters created = None.
Proof.
  intros Hverified Hfeed Hfresh result created. subst result.
  rewrite createDiscordChannelConnection_run.
  destruct (assertDiscordChannelCanBeUsed_verified userAccessToken channelId
              guildId w Hverified) as (channel & ->).
  simpl. rewrite Hfeed; simpl.
  assert (Hfind : List.find (has_id connectionId)
                    (discordChannels (connections feed) ++ [created]) = Some created).
  { apply find_app_fresh; [by apply has_id_fresh|]. apply String.eqb_refl. }
  fold created. rewrite Hfind. split; [done|].
  split; [by rewrite <- app_assoc|]. split; [done|]. split.
  { eexists. rewrite lookup_insert_eq. split; [done|]. simpl.
    split; [done|]. by rewrite last_snoc. }
  split; [done|]. split; [done|]. split.
  { unfold destination, created, newDiscordChannelConnection; simpl.
    by rewrite lookup_insert_ne, lookup_insert_eq. }
  split; [|done].
  unfold created, newDiscordChannelConnection; simpl.
  by rewrite !lookup_insert_ne, lookup_singleton_eq.
Qed.

(** X2: a create for a feed that does not exist passes the verification,
    calls the store, finds nothing to read back and throws the generic
    [Error "Connection was not successfuly created. ..."]; no feed is
    created by the push. *)
Theorem createDiscordChannelConnection_missing_feed
    (connectionId : ObjectId)
    (feedId name channelId userAccessToken guildId : string) (w : World) :
  verified_in env channelId userAccessToken guildId ->
  feeds w !! feedId = None ->
  createDiscordChannelConnection env connectionId feedId name channelId
    userAccessToken guildId w
  = (inl (Error "Connection was not successfuly created. Check insertion statement and schemas are correct."),
     logged w [CallCanUseChannel channelId userAccessToken;
               CallFindOneAndUpdate feedId]).
Proof.
  intros Hverified Hfeed.
  rewrite createDiscordChannelConnection_run.
  destruct (assertDiscordChannelCanBeUsed_verified userAccessToken channelId
              guildId w Hverified) as (channel & ->).
  simpl. rewrite Hfeed. unfold logged; simpl. by rewrite <- app_assoc.
Qed.

(** *** A patch that reaches its target *)

Lemma update_first_find {A} (p : A -> bool) (f : A -> A) (l : list A) :
  (forall x, p (f x) = p x) ->
  List.find p (update_first p f l) = f <$> List.find p l.
Proof.
  intros Hp. induction l as [|y l IH]; simpl; [done|].
  destruct (p y) eqn:Hy; simpl.
  - by rewrite Hp, Hy.
  - by rewrite Hy.
Qed.

Lemma existsb_find {A} (p : A -> bool) (l : list A) :
  existsb p l = true -> exists x, List.find p l = Some x /\ p x = true.
Proof.
  induction l as [|y l IH]; simpl; [done|].
  destruct (p y) eqn:Hy; [by exists y|]. simpl. apply IH.
Qed.

Lemma has_id_apply_set (connectionId : ObjectId) (u : Updates.t)
    (c : DiscordChannelConnection) :
  has_id connectionId (apply_set (updateQuery_set u) c) = has_id connectionId c.
Proof.
  unfold has_id. by destruct (apply_set_updateQuery u c) as (-> & _).
Qed.

(** What [updateDiscordChannelConnection] does once the query selects a
    feed and any verification has passed. *)
Lemma updateDiscordChannelConnection_selected
    (feedId : string) (connectionId : ObjectId)
    (input : UpdateDiscordChannelConnectionInput) (w : World) (feed : Feed) :
  selected feedId connectionId w = Some feed ->
  (forall c, Updates.details (updates input) ≫= channel = Some c ->
             verified_in env (ref_id c) (accessToken input) (guildId input)) ->
  exists target,
    List.find (has_id connectionId) (discordChannels (connections feed)) = Some target
    /\ has_id connectionId target = true
    /\ (updateDiscordChannelConnection env feedId connectionId input w).1
       = inr (apply_set (updateQuery_set (updates input)) target)
    /\ feeds (updateDiscordChannelConnection env feedId connectionId input w).2
       = <[feedId :=
             with_discordChannels feed
               (update_first (has_id connectionId)
                  (apply_set (updateQuery_set (updates input)))
                  (discordChannels (connections feed)))]> (feeds w).
Proof.
  intros Hsel Hverified.
  destruct (selected_Some _ _ _ _ Hsel) as [Hfeed Hex].
  destruct (existsb_find _ _ Hex) as (target & Hfind & Htarget).
  exists target. split; [done|]. split; [done|].
  rewrite updateDiscordChannelConnection_run; simpl.
  destruct (Updates.details (updates input) ≫= channel) as [c|].
  - destruct (assertDiscordChannelCanBeUsed_verified (accessToken input) (ref_id c)
                (guildId input) w (Hverified c eq_refl)) as (channel & ->).
    rewrite selected_logged, Hsel; simpl.
    rewrite update_first_find by (intros; apply has_id_apply_set).
    by rewrite Hfind.
  - rewrite Hsel; simpl.
    rewrite update_first_find by (intros; apply has_id_apply_set).
    by rewrite Hfind.
Qed.

(** X3: when the query selects a feed and the channel named by the patch,
    if any, passes verification, [updateDiscordChannelConnection] returns
    the patched connection, which is the one a lookup by the identifier
    reads back from the store.  It keeps its identifier, takes the patch's
    non-empty [name], its truthy [filters], the value the patch binds to
    each [details] key, and delivers to the patch's channel. *)
Theorem updateDiscordChannelConnection_returns_stored_patch
    (feedId : string) (connectionId : ObjectId)
    (input : UpdateDiscordChannelConnectionInput) (w : World) (feed : Feed) :
  selected feedId connectionId w = Some feed ->
  (forall c, Updates.details (updates input) ≫= channel = Some c ->
             verified_in env (ref_id c) (accessToken input) (guildId input)) ->
  let u := updates input in
  let result := updateDiscordChannelConnection env feedId connectionId input w in
  exists updated,
    result.1 = inr updated
    /\ (exists stored,
          feeds result.2 !! feedId = Some stored
          /\ List.find (has_id connectionId) (discordChannels (connections stored))
             = Some updated)
    /\ id updated = connectionId
    /\ (forall n, Updates.name u = Some n -> n <> "" ->
                  FeedConnections.name updated = n)
    /\ (forall f, Updates.filters u = Some f -> truthy f = true ->
                  filters updated = Some f)
    /\ (forall k v, lookup_entry k (patch_entries u) = Some v ->
                    details updated !! k = Some v)
    /\ (forall c, Updates.details u ≫= channel = Some c ->
                  destination updated = Some (ref_id c)).
Proof.
  intros Hsel Hverified u result.
  destruct (updateDiscordChannelConnection_selected feedId connectionId input w feed
              Hsel Hverified) as (target & Hfind & Htarget & Hres & Hfeeds).
  fold result in Hres, Hfeeds. fold u in Hres, Hfeeds.
  exists (apply_set (updateQuery_set u) target). split; [done|].
  destruct (apply_set_updateQuery u target) as (Hid & Hname & Hfil & Hdet).
  split; [|split; [|split; [|split; [|split]]]].
  - eexists. rewrite Hfeeds, lookup_insert_eq. split; [done|]. simpl.
    rewrite update_first_find by (intros; apply has_id_apply_set).
    by rewrite Hfind.
  - rewrite Hid. by apply String.eqb_eq.
  - intros n Hn Hne. rewrite Hname, Hn.
    by destruct (String.eqb_spec n "").
  - intros f Hf Ht. by rewrite Hfil, Hf, Ht.
  - intros k v Hk. by rewrite Hdet, Hk.
  - intros c Hc. by apply destination_patched_named.
Qed.

(** *** Patching twice *)

Lemma connection_ext (c1 c2 : DiscordChannelConnection) :
  id c1 = id c2 -> FeedConnections.name c1 = FeedConnections.name c2 ->
  filters c1 = filters c2 ->
  (forall k, details c1 !! k = details c2 !! k) ->
  c1 = c2.
Proof.
  destruct c1, c2; simpl. intros -> -> -> Hdet. f_equal. by apply map_eq.
Qed.

Lemma apply_set_idempotent (u : Updates.t) (c : DiscordChannelConnection) :
  apply_set (updateQuery_set u) (apply_set (updateQuery_set u) c)
  = apply_set (updateQuery_set u) c.
Proof.
  destruct (apply_set_updateQuery u c) as (Hid & Hname & Hfil & Hdet).
  destruct (apply_set_updateQuery u (apply_set (updateQuery_set u) c))
    as (Hid' & Hname' & Hfil' & Hdet').
  apply connection_ext.
  - done.
  - rewrite Hname', Hname. destruct (Updates.name u) as [n|]; [|done].
    by destruct (String.eqb n "").
  - rewrite Hfil', Hfil. destruct (Updates.filters u) as [f|]; [|done].
    by destruct (truthy f).
  - intros k. rewrite Hdet', Hdet. by destruct (lookup_entry k (patch_entries u)).
Qed.

Lemma update_first_idempotent {A} (p : A -> bool) (f : A -> A) (l : list A) :
  (forall x, p (f x) = p x) -> (forall x, f (f x) = f x) ->
  update_first p f (update_first p f l) = update_first p f l.
Proof.
  intros Hp Hf. induction l as [|x l IH]; simpl; [done|].
  destruct (p x) eqn:Hx; simpl.
  - by rewrite Hp, Hx, Hf.
  - by rewrite Hx, IH.
Qed.

Lemma existsb_update_first {A} (p : A -> bool) (f : A -> A) (l : list A) :
  (forall x, p (f x) = p x) ->
  existsb p (update_first p f l) = existsb p l.
Proof.
  intros Hp. induction l as [|x l IH]; simpl; [done|].
  destruct (p x) eqn:Hx; simpl.
  - by rewrite Hp, Hx.
  - by rewrite Hx, IH.
Qed.

Lemma selected_feeds (feedId : string) (connectionId : ObjectId) (w1 w2 : World) :
  feeds w1 = feeds w2 ->
  selected feedId connectionId w1 = selected feedId connectionId w2.
Proof. unfold selected. by intros ->. Qed.

(** The result and the feed collection after an update depend on the feed
    collection before it, not on the calls logged so far. *)
Lemma updateDiscordChannelConnection_by_feeds
    (feedId : string) (connectionId : ObjectId)
    (input : UpdateDiscordChannelConnectionInput) (w1 w2 : World) :
  feeds w1 = feeds w2 ->
  (updateDiscordChannelConnection env feedId connectionId input w1).1
  = (updateDiscordChannelConnection env feedId connectionId input w2).1
  /\ feeds (updateDiscordChannelConnection env feedId connectionId input w1).2
     = feeds (updateDiscordChannelConnection env feedId connectionId input w2).2.
Proof.
  intros Hfeeds. rewrite !updateDiscordChannelConnection_run. simpl.
  destruct (Updates.details (updates input) ≫= channel) as [c|].
  - rewrite !assertDiscordChannelCanBeUsed_run.
    set (answer := match canUseChannel env (ref_id c) (accessToken input) with
                   | inl _ => _ | inr _ => _ end).
    destruct answer as [err|ch]; simpl; [done|].
    rewrite !selected_logged, (selected_feeds _ _ w1 w2 Hfeeds).
    destruct (selected feedId connectionId w2); simpl; [|done].
    by rewrite Hfeeds.
  - rewrite (selected_feeds _ _ w1 w2 Hfeeds).
    destruct (selected feedId connectionId w2); simpl; [|done].
    by rewrite Hfeeds.
Qed.

(** An update either leaves the feed collection alone, or its query selected
    a feed and any channel the patch names has been verified. *)
Lemma updateDiscordChannelConnection_cases
    (feedId : string) (connectionId : ObjectId)
    (input : UpdateDiscordChannelConnectionInput) (w : World) :
  feeds (updateDiscordChannelConnection env feedId connectionId input w).2 = feeds w
  \/ exists feed,
       selected feedId connectionId w = Some feed
       /\ forall c, Updates.details (updates input) ≫= channel = Some c ->
                    verified_in env (ref_id c) (accessToken input) (guildId input).
Proof.
  rewrite updateDiscordChannelConnection_run; simpl.
  destruct (Updates.details (updates input) ≫= channel) as [c|].
  - destruct (assertDiscordChannelCanBeUsed _ _ _ _ w) as [[err|ch] w1] eqn:Hv.
    + left. rewrite assertDiscordChannelCanBeUsed_run in Hv. by injection Hv as _ <-.
    + apply assertDiscordChannelCanBeUsed_passed in Hv as [Hv ->].
      rewrite selected_logged.
      destruct (selected feedId connectionId w) as [feed|] eqn:Hsel; [|by left].
      right. exists feed. split; [done|]. by intros ? [= <-].
  - destruct (selected feedId connectionId w) as [feed|] eqn:Hsel; [|by left].
    right. exists feed. by split.
Qed.

(** X4: [updateDiscordChannelConnection] is idempotent: running the same
    call again on the world it left, with the channel lookup answering as
    before, gives the same result (the same patched connection, or the same
    error) and leaves the feed collection as the first call left it. *)
Theorem updateDiscordChannelConnection_idempotent
    (feedId : string) (connectionId : ObjectId)
    (input : UpdateDiscordChannelConnectionInput) (w : World) :
  let first := updateDiscordChannelConnection env feedId connectionId input w in
  let second := updateDiscordChannelConnection env feedId connectionId input first.2 in
  second.1 = first.1 /\ feeds second.2 = feeds first.2.
Proof.
  intros first second.
  destruct (updateDiscordChannelConnection_cases feedId connectionId input w)
    as [Hsame|(feed & Hsel & Hverified)].
  { fold first in Hsame.
    destruct (updateDiscordChannelConnection_by_feeds feedId connectionId input
                first.2 w Hsame) as [Hres Hfeeds].
    fold first second in Hres, Hfeeds. split; [done|]. congruence. }
  set (p := has_id connectionId).
  set (f := apply_set (updateQuery_set (updates input))).
  assert (Hp : forall x, p (f x) = p x) by (intros; apply has_id_apply_set).
  assert (Hf : forall x, f (f x) = f x) by (intros; apply apply_set_idempotent).
  destruct (updateDiscordChannelConnection_selected feedId connectionId input w feed
              Hsel Hverified) as (target & Hfind & Htarget & Hres & Hfeeds).
  fold first p f in Hres, Hfeeds, Hfind.
  set (updated := with_discordChannels feed
                    (update_first p f (discordChannels (connections feed)))) in *.
  assert (Hsel' : selected feedId connectionId first.2 = Some updated).
  { apply selected_Some in Hsel as [_ Hex]. fold p in Hex.
    unfold selected. rewrite Hfeeds, lookup_insert_eq. simpl.
    fold p. by rewrite existsb_update_first, Hex. }
  destruct (updateDiscordChannelConnection_selected feedId connectionId input first.2
              updated Hsel' Hverified) as (target' & Hfind' & _ & Hres' & Hfeeds').
  fold second p f in Hres', Hfeeds', Hfind'. simpl in Hfind', Hfeeds'.
  rewrite update_first_find, Hfind in Hfind' by done. injection Hfind' as <-.
  split.
  - by rewrite Hres', Hres, Hf.
  - rewrite Hfeeds', Hfeeds, update_first_idempotent by done.
    by rewrite insert_insert_eq.
Qed.

(** *** What a patch leaves alone *)

Lemma update_first_lookup_other {A} (p : A -> bool) (f : A -> A) (l : list A)
    (i : nat) (x : A) :
  l !! i = Some x ->
  p x = false \/ (exists j y, (j < i)%nat /\ l !! j = Some y /\ p y = true) ->
  update_first p f l !! i = Some x.
Proof.
  revert i. induction l as [|y l IH]; intros i Hi Hother; simpl in *; [done|].
  destruct (p y) eqn:Hy.
  - destruct i as [|i]; simpl in *; [|done].
    injection Hi as ->. destruct Hother as [Hx|(j & _ & Hj & _)]; [congruence|lia].
  - destruct i as [|i]; simpl in *; [done|].
    apply IH; [done|]. destruct Hother as [Hx|(j & z & Hj & Hz & Hpz)]; [by left|].
    right. destruct j as [|j]; simpl in *; [congruence|].
    exists j, z. split; [lia|done].
Qed.

(** X5: [updateDiscordChannelConnection] patches at most one connection,
    the first one of the addressed feed that has the identifier.  Every
    connection of another feed, every connection with another identifier,
    and every connection that comes after one with the same identifier is
    stored afterwards exactly as it was, at the same position. *)
Theorem updateDiscordChannelConnection_patches_first_match_only
    (feedId : string) (connectionId : ObjectId)
    (input : UpdateDiscordChannelConnectionInput) (w : World)
    (fid : string) (feed : Feed) (i : nat) (c : DiscordChannelConnection) :
  feeds w !! fid = Some feed ->
  discordChannels (connections feed) !! i = Some c ->
  fid <> feedId
  \/ id c <> connectionId
  \/ (exists j c0, (j < i)%nat
                   /\ discordChannels (connections feed) !! j = Some c0
                   /\ id c0 = connectionId) ->
  exists feed',
    feeds (updateDiscordChannelConnection env feedId connectionId input w).2 !! fid
    = Some feed'
    /\ discordChannels (connections feed') !! i = Some c.
Proof.
  intros Hfeed Hc Hother.
  destruct (updateDiscordChannelConnection_feeds env feedId connectionId input w)
    as [Heq|(target & Htarget & Heq & _)]; rewrite Heq; [by exists feed|].
  destruct (decide (feedId = fid)) as [->|Hne];
    [|rewrite lookup_insert_ne by done; by exists feed].
  rewrite lookup_insert_eq. eexists; split; [done|]. simpl.
  rewrite Htarget in Hfeed. injection Hfeed as ->.
  apply update_first_lookup_other; [done|].
  destruct Hother as [?|[Hid|(j & c0 & Hj & Hc0 & Hid)]]; [done| |].
  - left. by apply String.eqb_neq.
  - right. exists j, c0. split; [done|]. split; [done|]. by apply String.eqb_eq.
Qed.

(** *** Webhook connections *)

(** [createDiscordWebhookConnection] once its four checks pass. *)
Lemma createDiscordWebhookConnection_checked
    (connectionId : ObjectId) (accessToken feedId guildId name : string)
    (input : WebhookInput.t) (fetched : DiscordWebhook) (w : World) :
  webhook_checks_pass env accessToken guildId (WebhookInput.id input) fetched ->
  let checked :=
    logged w [CallGetWebhook (WebhookInput.id input); CallCanBeUsedByBot fetched;
              CallUserManagesGuild accessToken guildId;
              CallFindOneAndUpdate feedId] in
  createDiscordWebhookConnection env connectionId accessToken feedId guildId name
    input w =
  match feeds w !! feedId with
  | Some feed =>
      let updated :=
        with_discordWebhooks feed
          (discordWebhooks (connections feed)
           ++ [newDiscordWebhookConnection connectionId name input fetched]) in
      (match List.find (webhook_has_id connectionId)
                         (discordWebhooks (connections updated)) with
       | Some c => inr c
       | None => inl notCreated
       end,
       store feedId updated checked)
  | None => (inl notCreated, checked)
  end.
Proof.
  intros (Hget & Hbot & Hguild & Hperm) checked. subst checked.
  unfold createDiscordWebhookConnection, findOneAndUpdate_pushDiscordWebhook. run.
  rewrite Hget; simpl. rewrite Hbot; simpl.
  apply String.eqb_eq in Hguild. rewrite Hguild; simpl.
  rewrite Hperm; simpl. rewrite <- !app_assoc; simpl.
  destruct (feeds w !! feedId) as [feed|]; simpl; [|done].
  by destruct (List.find _ _).
Qed.

Lemma webhook_has_id_fresh (connectionId : ObjectId) (l : list DiscordWebhookConnection) :
  connectionId ∉ webhook_connection_id <$> l ->
  Forall (fun c => webhook_has_id connectionId c = false) l.
Proof.
  intros Hfresh. apply Forall_forall. intros c Hc. unfold webhook_has_id.
  apply String.eqb_neq. intros Heq. apply Hfresh.
  apply list_elem_of_fmap. by exists c.
Qed.

(** X6: a webhook connection created under a fresh identifier, for an
    existing feed and a webhook that passes the four checks, is returned as
    it was built: the given name, the webhook id, name and icon of the
    request, the delivery token of the fetched webhook, no embeds.  It is
    appended to the feed's webhook connections, where a lookup by its
    identifier reads it back, and the feed's channel connections and guild
    are as before.  The calls made are the webhook lookup, the bot check,
    the permission check and the store, in that order. *)
Theorem createDiscordWebhookConnection_round_trip
    (connectionId : ObjectId) (accessToken feedId guildId name : string)
    (input : WebhookInput.t) (fetched : DiscordWebhook) (w : World) (feed : Feed) :
  webhook_checks_pass env accessToken guildId (WebhookInput.id input) fetched ->
  feeds w !! feedId = Some feed ->
  connectionId ∉ webhook_ids feed ->
  let result :=
    createDiscordWebhookConnection env connectionId accessToken feedId guildId name
      input w in
  exists created,
    result.1 = inr created
    /\ webhook_connection_id created = connectionId
    /\ webhook_connection_name created = name
    /\ webhook_connection_embeds created = []
    /\ webhook_ref_id (webhook created) = WebhookInput.id input
    /\ webhook_name (webhook created) = WebhookInput.name input
    /\ webhook_iconUrl (webhook created) = WebhookInput.iconUrl input
    /\ token (webhook created) = webhook_token fetched
    /\ calls result.2
       = calls w ++ [CallGetWebhook (WebhookInput.id input);
                     CallCanBeUsedByBot fetched;
                     CallUserManagesGuild accessToken guildId;
                     CallFindOneAndUpdate feedId]
    /\ exists stored,
         feeds result.2 !! feedId = Some stored
         /\ discordWebhooks (connections stored)
            = discordWebhooks (connections feed) ++ [created]
         /\ List.find (webhook_has_id connectionId)
              (discordWebhooks (connections stored)) = Some created
         /\ discordChannels (connections stored)
            = discordChannels (connections feed)
         /\ guild stored = guild feed.
Proof.
  intros Hchecks Hfeed Hfresh result. subst result.
  rewrite (createDiscordWebhookConnection_checked _ _ _ _ _ _ fetched w Hchecks).
  rewrite Hfeed. simpl.
  set (created := newDiscordWebhookConnection connectionId name input fetched).
  assert (Hfind : List.find (webhook_has_id connectionId)
                    (discordWebhooks (connections feed) ++ [created]) = Some created).
  { apply find_app_fresh; [by apply webhook_has_id_fresh|]. apply String.eqb_refl. }
  rewrite Hfind. exists created. repeat (split; [done|]).
  eexists. rewrite lookup_insert_eq. by split.
Qed.

(** X7: a webhook create for a feed that does not exist runs all four
    checks, calls the store, finds nothing to read back and throws the
    generic [Error "Connection was not successfuly created. ..."]; the feed
    collection is as before. *)
Theorem createDiscordWebhookConnection_missing_feed
    (connectionId : ObjectId) (accessToken feedId guildId name : string)
    (input : WebhookInput.t) (fetched : DiscordWebhook) (w : World) :
  webhook_checks_pass env accessToken guildId (WebhookInput.id input) fetched ->
  feeds w !! feedId = None ->
  createDiscordWebhookConnection env connectionId accessToken feedId guildId name
    input w
  = (inl (Error "Connection was not successfuly created. Check insertion statement and schemas are correct."),
     logged w [CallGetWebhook (WebhookInput.id input); CallCanBeUsedByBot fetched;
               CallUserManagesGuild accessToken guildId;
               CallFindOneAndUpdate feedId]).
Proof.
  intros Hchecks Hfeed.
  rewrite (createDiscordWebhookConnection_checked _ _ _ _ _ _ fetched w Hchecks).
  by rewrite Hfeed.
Qed.

(** X8: a rejection of a collaborator of [createDiscordWebhookConnection] is
    the rejection of the operation, unchanged: when the webhook lookup
    rejects, nothing else is called; when the permission check rejects
    (after the first three checks have passed), the store is not called.
    Nothing is stored in either case. *)
Theorem createDiscordWebhookConnection_propagates_rejections
    (connectionId : ObjectId) (accessToken feedId guildId name : string)
    (input : WebhookInput.t) (w : World) (err : Exception) :
  let id := WebhookInput.id input in
  let result :=
    createDiscordWebhookConnection env connectionId accessToken feedId guildId name
      input w in
  (getWebhook env id = inl err ->
   result = (inl err, logged w [CallGetWebhook id]))
  /\ (forall fetched,
        getWebhook env id = inr (Some fetched) ->
        canBeUsedByBot env fetched = true ->
        webhook_guild_id fetched = guildId ->
        userManagesGuild env accessToken guildId = inl err ->
        result = (inl err,
                  logged w [CallGetWebhook id; CallCanBeUsedByBot fetched;
                            CallUserManagesGuild accessToken guildId])).
Proof.
  intros id result; subst id result.
  unfold createDiscordWebhookConnection. split.
  - intros Hget. run. by rewrite Hget.
  - intros fetched Hget Hbot Hguild Hperm. run. rewrite Hget; simpl.
    rewrite Hbot; simpl. apply String.eqb_eq in Hguild. rewrite Hguild; simpl.
    rewrite Hperm; simpl. by rewrite <- !app_assoc.
Qed.

(** X9: [createDiscordWebhookConnection] reaches the store only through the
    four checks: whenever it returns a connection, or the feed collection
    is not what it was, the webhook exists, can be used by the bot, belongs
    to the requested guild, and the requesting user manages that guild. *)
Theorem createDiscordWebhookConnection_stores_only_checked
    (connectionId : ObjectId) (accessToken feedId guildId name : string)
    (input : WebhookInput.t) (w : World) :
  let result :=
    createDiscordWebhookConnection env connectionId accessToken feedId guildId name
      input w in
  (exists c, result.1 = inr c) \/ feeds result.2 <> feeds w ->
  exists fetched,
    webhook_checks_pass env accessToken guildId (WebhookInput.id input) fetched.
Proof.
  intros result. subst result.
  unfold createDiscordWebhookConnection, webhook_checks_pass. run.
  destruct (getWebhook env (WebhookInput.id input)) as [err|[fetched|]]; simpl;
    try by intros [[? [=]]|?].
  destruct (canBeUsedByBot env fetched) eqn:Hbot; simpl;
    try by intros [[? [=]]|?].
  destruct (String.eqb_spec (webhook_guild_id fetched) guildId) as [Hguild|];
    simpl; try by intros [[? [=]]|?].
  destruct (userManagesGuild env accessToken guildId) as [err|[|]] eqn:Hperm; simpl;
    try by intros [[? [=]]|?].
  intros _. by exists fetched.
Qed.

(** *** Feeds and identifiers *)

(** The feed collection after [createDiscordWebhookConnection]: untouched,
    or the addressed feed with one more webhook connection. *)
(** X10: none of the three operations creates a feed, deletes one, or moves
    one to another guild: under every feed id, the feed collection holds a
    feed afterwards exactly when it held one before, with the same guild.
    In particular the pushes are no upserts. *)
Theorem operations_keep_feeds_and_guilds
    (connectionId : ObjectId) (feedId name channelId accessToken guildId : string)
    (input : UpdateDiscordChannelConnectionInput) (webhookInput : WebhookInput.t)
    (w : World) (fid : string) :
  guild <$> (feeds (createDiscordChannelConnection env connectionId feedId name
                      channelId accessToken guildId w).2 !! fid)
  = guild <$> (feeds w !! fid)
  /\ guild <$> (feeds (updateDiscordChannelConnection env feedId connectionId
                         input w).2 !! fid)
     = guild <$> (feeds w !! fid)
  /\ guild <$> (feeds (createDiscordWebhookConnection env connectionId accessToken
                         feedId guildId name webhookInput w).2 !! fid)
     = guild <$> (feeds w !! fid).
Proof.
  split; [|split].
  - destruct (createDiscordChannelConnection_feeds env connectionId feedId name
                channelId accessToken guildId w) as [->|(feed & Hfeed & -> & _)];
      [done|]. by apply (insert_same_guild _ _ _ feed).
  - destruct (updateDiscordChannelConnection_feeds env feedId connectionId input w)
      as [->|(feed & Hfeed & -> & _)]; [done|].
    by apply (insert_same_guild _ _ _ feed).
  - destruct (createDiscordWebhookConnection_feeds env connectionId accessToken feedId
                guildId name webhookInput w) as [->|(feed & fetched & Hfeed & ->)];
      [done|]. by apply (insert_same_guild _ _ _ feed).
Qed.

Lemma update_first_fmap {A B} (g : A -> B) (p : A -> bool) (f : A -> A) (l : list A) :
  (forall x, g (f x) = g x) -> g <$> update_first p f l = g <$> l.
Proof.
  intros Hg. induction l as [|x l IH]; [done|].
  cbn [update_first]. destruct (p x); rewrite !fmap_cons; congruence.
Qed.

Lemma unique_ids_insert (fs : gmap string Feed) (feedId : string) (feed' : Feed) :
  unique_ids fs ->
  NoDup (channel_ids feed') -> NoDup (webhook_ids feed') ->
  unique_ids (<[feedId := feed']> fs).
Proof.
  intros Hfs Hc Hw fid feed Hfeed.
  destruct (decide (feedId = fid)) as [->|Hne].
  - rewrite lookup_insert_eq in Hfeed. by injection Hfeed as <-.
  - rewrite lookup_insert_ne in Hfeed by done. by eapply Hfs.
Qed.

(** X11: identifiers stay unique within a feed.  If no two channel
    connections and no two webhook connections of a feed share an
    identifier, this is still so after an update (which never changes an
    identifier), after a channel create under an identifier that no channel
    connection of the addressed feed has, and after a webhook create under
    an identifier that no webhook connection of the addressed feed has. *)
Theorem operations_keep_ids_unique
    (connectionId : ObjectId) (feedId name channelId accessToken guildId : string)
    (input : UpdateDiscordChannelConnectionInput) (webhookInput : WebhookInput.t)
    (w : World) :
  unique_ids (feeds w) ->
  unique_ids (feeds (updateDiscordChannelConnection env feedId connectionId
                       input w).2)
  /\ ((forall feed, feeds w !! feedId = Some feed ->
                    connectionId ∉ channel_ids feed) ->
      unique_ids (feeds (createDiscordChannelConnection env connectionId feedId
                           name channelId accessToken guildId w).2))
  /\ ((forall feed, feeds w !! feedId = Some feed ->
                    connectionId ∉ webhook_ids feed) ->
      unique_ids (feeds (createDiscordWebhookConnection env connectionId
                           accessToken feedId guildId name webhookInput w).2)).
Proof.
  intros Huniq. split; [|split].
  - destruct (updateDiscordChannelConnection_feeds env feedId connectionId input w)
      as [->|(feed & Hfeed & -> & _)]; [done|].
    destruct (Huniq feedId feed Hfeed) as [Hc Hw].
    apply unique_ids_insert; [done| |done].
    unfold channel_ids; simpl. rewrite update_first_fmap; [done|].
    intros c. by destruct (apply_set_updateQuery (updates input) c) as (-> & _).
  - intros Hfresh.
    destruct (createDiscordChannelConnection_feeds env connectionId feedId name
                channelId accessToken guildId w) as [->|(feed & Hfeed & -> & _)];
      [done|].
    destruct (Huniq feedId feed Hfeed) as [Hc Hw].
    apply unique_ids_insert; [done| |done].
    unfold channel_ids; simpl. rewrite fmap_app; simpl.
    apply NoDup_app. split; [done|]. split; [|apply NoDup_singleton].
    intros x Hx Hin. apply list_elem_of_singleton in Hin as ->.
    by apply (Hfresh feed Hfeed).
  - intros Hfresh.
    destruct (createDiscordWebhookConnection_feeds env connectionId accessToken feedId
                guildId name webhookInput w) as [->|(feed & fetched & Hfeed & ->)];
      [done|].
    destruct (Huniq feedId feed Hfeed) as [Hc Hw].
    apply unique_ids_insert; [done|done|].
    unfold webhook_ids; simpl. rewrite fmap_app; simpl.
    apply NoDup_app. split; [done|]. split; [|apply NoDup_singleton].
    intros x Hx Hin. apply list_elem_of_singleton in Hin as ->.
    by apply (Hfresh feed Hfeed).
Qed.

(** *** Create, then patch *)

(** X25: a connection that was just created can be patched under its
    identifier: after a successful create under a fresh identifier, an
    update of that feed and identifier whose patch has no [channel] key
    succeeds without any verification, and returns the created connection
    with the patch's non-empty name, still delivering to the channel it
    was created for and still without filters when the patch has none. *)
Theorem create_then_update
    (connectionId : ObjectId)
    (feedId name channelId userAccessToken guildId : string)
    (input : UpdateDiscordChannelConnectionInput) (newName : string)
    (w : World) (feed : Feed) :
  verified_in env channelId userAccessToken guildId ->
  feeds w !! feedId = Some feed ->
  connectionId ∉ channel_ids feed ->
  Updates.details (updates input) ≫= channelKey = None ->
  Updates.name (updates input) = Some newName -> newName <> "" ->
  let created :=
    createDiscordChannelConnection env connectionId feedId name channelId
      userAccessToken guildId w in
  let patched :=
    updateDiscordChannelConnection env feedId connectionId input created.2 in
  exists c,
    patched.1 = inr c
    /\ id c = connectionId
    /\ FeedConnections.name c = newName
    /\ destination c = Some channelId
    /\ (Updates.filters (updates input) = None -> filters c = None)
    /\ calls patched.2 = calls created.2 ++ [CallFindOneAndUpdate feedId].
Proof.
  intros Hverified Hfeed Hfresh Hkey Hname Hne created patched.
  pose proof (channel_key_missing _ Hkey) as Hchannel.
  set (new := newDiscordChannelConnection env connectionId name channelId).
  set (stored := with_discordChannels feed (discordChannels (connections feed) ++ [new])).
  assert (Hfind : List.find (has_id connectionId)
                    (discordChannels (connections feed) ++ [new]) = Some new).
  { apply find_app_fresh; [by apply has_id_fresh|]. apply String.eqb_refl. }
  assert (Hcreated : feeds created.2 = <[feedId := stored]> (feeds w)).
  { subst created. rewrite createDiscordChannelConnection_run.
    destruct (assertDiscordChannelCanBeUsed_verified userAccessToken channelId
                guildId w Hverified) as (ch & ->).
    simpl. by rewrite Hfeed. }
  assert (Hsel : selected feedId connectionId created.2 = Some stored).
  { unfold selected. rewrite Hcreated, lookup_insert_eq. simpl.
    rewrite existsb_app. simpl. unfold has_id at 2. simpl.
    by rewrite String.eqb_refl, orb_true_r. }
  destruct (updateDiscordChannelConnection_selected feedId connectionId input
              created.2 stored Hsel) as (target & Htarget & _ & Hres & _).
  { intros c Hc. congruence. }
  simpl in Htarget. rewrite Hfind in Htarget. injection Htarget as <-.
  fold patched in Hres.
  exists (apply_set (updateQuery_set (updates input)) new). split; [done|].
  destruct (apply_set_updateQuery (updates input) new) as (Hid & Hnm & Hfil & _).
  split; [done|]. split.
  { rewrite Hnm, Hname. by destruct (String.eqb_spec newName ""). }
  split.
  { rewrite destination_patched, Hkey.
    unfold destination, new, newDiscordChannelConnection; simpl.
    by rewrite lookup_insert_ne, lookup_insert_eq. }
  split.
  { intros Hnone. by rewrite Hfil, Hnone. }
  subst patched. rewrite updateDiscordChannelConnection_run, Hchannel. simpl.
  by rewrite Hsel.
Qed.

(** *** The verifier *)

(** X12: [assertDiscordChannelCanBeUsed] makes one call, the channel lookup,
    and stores nothing.  It returns a channel exactly when the lookup
    answers with that channel and the channel's guild is the expected one.
    It never throws a Discord API error with status 404 or 403: those two
    always leave as [MissingDiscordChannelException] and
    [DiscordChannelPermissionsException]. *)
Theorem assertDiscordChannelCanBeUsed_outcome
    (accessToken channelId guildId : string) (w : World) :
  let result := assertDiscordChannelCanBeUsed env accessToken channelId guildId w in
  result.2 = logged w [CallCanUseChannel channelId accessToken]
  /\ (forall channel,
        result.1 = inr channel
        <-> canUseChannel env channelId accessToken = inr channel
            /\ channel_guild_id channel = guildId)
  /\ result.1 <> inl (DiscordAPIError HttpStatus_NOT_FOUND)
  /\ result.1 <> inl (DiscordAPIError HttpStatus_FORBIDDEN).
Proof.
  intros result. subst result. rewrite assertDiscordChannelCanBeUsed_run. simpl.
  split; [done|].
  destruct (canUseChannel env channelId accessToken) as [err|ch].
  - split; [|split].
    + intros channel. split; [|by intros [[=] _]].
      destruct err; try done.
      destruct (statusCode =? HttpStatus_NOT_FOUND)%Z; [done|].
      by destruct (statusCode =? HttpStatus_FORBIDDEN)%Z.
    + destruct err; try done.
      destruct (Z.eqb_spec statusCode HttpStatus_NOT_FOUND); [done|].
      destruct (Z.eqb_spec statusCode HttpStatus_FORBIDDEN); [done|]. congruence.
    + destruct err; try done.
      destruct (Z.eqb_spec statusCode HttpStatus_NOT_FOUND); [done|].
      destruct (Z.eqb_spec statusCode HttpStatus_FORBIDDEN); [done|]. congruence.
  - destruct (String.eqb_spec (channel_guild_id ch) guildId) as [Hg|Hg].
    + split; [|done]. intros channel. split.
      * by intros [= <-].
      * by intros [[= <-] _].
    + split; [|done]. intros channel. split; [done|].
      intros [[= <-] ?]. done.
Qed.

End FeedConnectionsService_further.

Section FeedConnectionsService_further_scenario.

Import Js FeedConnections Scenario.

Lemma verified_channel_1b : verified_in env "channel-1b" "manager" "guild-1".
Proof. by eexists. Qed.

Lemma createDiscordChannelConnection_round_trip_witness :
  let result :=
    createDiscordChannelConnection env "connection-2" "feed-1" "second" "channel-1b"
      "manager" "guild-1" world in
  result.1 = inr (newDiscordChannelConnection env "connection-2" "second" "channel-1b")
  /\ calls result.2
     = [CallCanUseChannel "channel-1b" "manager"; CallFindOneAndUpdate "feed-1"]
  /\ exists stored,
       feeds result.2 !! "feed-1" = Some stored
       /\ last (discordChannels (connections stored))
          = Some (newDiscordChannelConnection env "connection-2" "second" "channel-1b").
Proof.
  intros result.
  destruct (createDiscordChannelConnection_round_trip env "connection-2" "feed-1"
              "second" "channel-1b" "manager" "guild-1" world feed1)
    as (Hres & Hcalls & _ & (stored & Hstored & _ & Hlast) & _).
  - exact verified_channel_1b.
  - reflexivity.
  - intros Hin. apply list_elem_of_singleton in Hin. discriminate Hin.
  - split; [exact Hres|]. split; [exact Hcalls|]. by exists stored.
Defined.

Lemma createDiscordChannelConnection_missing_feed_witness :
  createDiscordChannelConnection env "connection-2" "feed-0" "second" "channel-1b"
    "manager" "guild-1" world
  = (inl (Error "Connection was not successfuly created. Check insertion statement and schemas are correct."),
     logged world [CallCanUseChannel "channel-1b" "manager";
                   CallFindOneAndUpdate "feed-0"]).
Proof.
  apply (createDiscordChannelConnection_missing_feed env "connection-2" "feed-0"
           "second" "channel-1b" "manager" "guild-1" world).
  - exact verified_channel_1b.
  - reflexivity.
Defined.

Lemma updateDiscordChannelConnection_returns_stored_patch_witness :
  let input :=
    patch (Some (Obj [("expression", Str "x")])) (Some "renamed")
      (Some {| channelKey := Some (ChannelObject {| ref_id := "channel-1b" |});
               otherKeys := [("content", Str "goodbye")] |}) in
  exists updated,
    (updateDiscordChannelConnection env "feed-1" "connection-1" input world).1
    = inr updated
    /\ id updated = "connection-1"
    /\ FeedConnections.name updated = "renamed"
    /\ filters updated = Some (Obj [("expression", Str "x")])
    /\ details updated !! "content" = Some (Str "goodbye")
    /\ destination updated = Some "channel-1b".
Proof.
  intros input.
  destruct (updateDiscordChannelConnection_returns_stored_patch env "feed-1"
              "connection-1" input world feed1)
    as (updated & Hres & _ & Hid & Hname & Hfil & Hdet & Hdest).
  - reflexivity.
  - intros c Hc. injection Hc as <-. exact verified_channel_1b.
  - exists updated. split; [exact Hres|]. split; [exact Hid|].
    split; [by apply Hname|]. split; [by apply Hfil|].
    split; [by apply Hdet|]. exact (Hdest {| ref_id := "channel-1b" |} eq_refl).
Defined.

Lemma updateDiscordChannelConnection_patches_first_match_only_witness :
  let twin :=
    {| id := "connection-1"; name := "twin"; filters := None; details := ∅ |} in
  let other :=
    {| id := "connection-3"; name := "third"; filters := None; details := ∅ |} in
  let w :=
    {| feeds := {[ "feed-1" :=
                     with_discordChannels feed1 [connection1; other; twin] ]};
       calls := [] |} in
  let w' :=
    (updateDiscordChannelConnection env "feed-1" "connection-1"
       (patch None (Some "renamed") None) w).2 in
  exists feed',
    feeds w' !! "feed-1" = Some feed'
    /\ discordChannels (connections feed') !! 1%nat = Some other
    /\ discordChannels (connections feed') !! 2%nat = Some twin.
Proof.
  intros twin other w w'.
  destruct (updateDiscordChannelConnection_patches_first_match_only env "feed-1"
              "connection-1" (patch None (Some "renamed") None) w "feed-1"
              (with_discordChannels feed1 [connection1; other; twin]) 1%nat other)
    as (feed' & Hfeed' & Hother).
  - reflexivity.
  - reflexivity.
  - right; left. discriminate.
  - destruct (updateDiscordChannelConnection_patches_first_match_only env "feed-1"
                "connection-1" (patch None (Some "renamed") None) w "feed-1"
                (with_discordChannels feed1 [connection1; other; twin]) 2%nat twin)
      as (feed'' & Hfeed'' & Htwin).
    + reflexivity.
    + reflexivity.
    + right; right. exists 0%nat, connection1. split; [lia|]. by split.
    + exists feed'. split; [exact Hfeed'|]. split; [exact Hother|].
      fold w' in Hfeed', Hfeed''. rewrite Hfeed' in Hfeed''.
      injection Hfeed'' as <-. exact Htwin.
Defined.

Lemma webhook1_checks_pass :
  webhook_checks_pass env "manager" "guild-1" "webhook-1"
    {| webhook_id := "webhook-1"; webhook_guild_id := "guild-1";
       webhook_token := Some "token-1" |}.
Proof. by repeat split. Qed.

Lemma createDiscordWebhookConnection_round_trip_witness :
  exists created,
    (createDiscordWebhookConnection env "connection-2" "manager" "feed-1" "guild-1"
       "by webhook" (webhookInput "webhook-1") world).1 = inr created
    /\ webhook_connection_name created = "by webhook"
    /\ webhook_ref_id (webhook created) = "webhook-1"
    /\ token (webhook created) = Some "token-1".
Proof.
  destruct (createDiscordWebhookConnection_round_trip env "connection-2" "manager"
              "feed-1" "guild-1" "by webhook" (webhookInput "webhook-1")
              {| webhook_id := "webhook-1"; webhook_guild_id := "guild-1";
                 webhook_token := Some "token-1" |} world feed1)
    as (created & Hres & _ & Hname & _ & Href & _ & _ & Htoken & _).
  - exact webhook1_checks_pass.
  - reflexivity.
  - intros Hin. by apply elem_of_nil in Hin.
  - exists created. by repeat split.
Defined.

Lemma createDiscordWebhookConnection_missing_feed_witness :
  (createDiscordWebhookConnection env "connection-2" "manager" "feed-0" "guild-1"
     "by webhook" (webhookInput "webhook-1") world).1
  = inl (Error "Connection was not successfuly created. Check insertion statement and schemas are correct.").
Proof.
  rewrite (createDiscordWebhookConnection_missing_feed env "connection-2" "manager"
             "feed-0" "guild-1" "by webhook" (webhookInput "webhook-1")
             {| webhook_id := "webhook-1"; webhook_guild_id := "guild-1";
                webhook_token := Some "token-1" |} world).
  - reflexivity.
  - exact webhook1_checks_pass.
  - reflexivity.
Defined.

Lemma createDiscordWebhookConnection_propagates_rejections_witness :
  let outage := OtherFailure "connection reset" in
  let down :=
    {| canUseChannel := canUseChannel env;
       getWebhook := fun _ => inl outage;
       canBeUsedByBot := canBeUsedByBot env;
       userManagesGuild := userManagesGuild env;
       FeedConnectionType_DiscordChannel := "DISCORD_CHANNEL" |} in
  let unsure :=
    {| canUseChannel := canUseChannel env;
       getWebhook := getWebhook env;
       canBeUsedByBot := canBeUsedByBot env;
       userManagesGuild := fun _ _ => inl outage;
       FeedConnectionType_DiscordChannel := "DISCORD_CHANNEL" |} in
  createDiscordWebhookConnection down "connection-2" "manager" "feed-1" "guild-1"
    "by webhook" (webhookInput "webhook-1") world
  = (inl outage, logged world [CallGetWebhook "webhook-1"])
  /\ (createDiscordWebhookConnection unsure "connection-2" "manager" "feed-1"
        "guild-1" "by webhook" (webhookInput "webhook-1") world).1
     = inl outage.
Proof.
  intros outage down unsure. split.
  - apply (proj1 (createDiscordWebhookConnection_propagates_rejections down
                    "connection-2" "manager" "feed-1" "guild-1" "by webhook"
                    (webhookInput "webhook-1") world outage)).
    reflexivity.
  - rewrite (proj2 (createDiscordWebhookConnection_propagates_rejections unsure
                      "connection-2" "manager" "feed-1" "guild-1" "by webhook"
                      (webhookInput "webhook-1") world outage)
               {| webhook_id := "webhook-1"; webhook_guild_id := "guild-1";
                  webhook_token := Some "token-1" |});
      reflexivity.
Defined.

Lemma createDiscordWebhookConnection_stores_only_checked_witness :
  exists fetched, webhook_checks_pass env "manager" "guild-1" "webhook-1" fetched.
Proof.
  apply (createDiscordWebhookConnection_stores_only_checked env "connection-2"
           "manager" "feed-1" "guild-1" "by webhook" (webhookInput "webhook-1") world).
  left. eexists. reflexivity.
Defined.

Lemma world_unique_ids : unique_ids (feeds world).
Proof.
  intros feedId feed Hfeed. unfold world in Hfeed; simpl in Hfeed.
  apply lookup_singleton_Some in Hfeed as [_ <-].
  split; [apply NoDup_singleton | apply NoDup_nil_2].
Qed.

Lemma operations_keep_ids_unique_witness :
  unique_ids
    (feeds (updateDiscordChannelConnection env "feed-1" "connection-1"
              (patch None (Some "renamed") None) world).2)
  /\ unique_ids
       (feeds (createDiscordChannelConnection env "connection-2" "feed-1" "second"
                 "channel-1b" "manager" "guild-1" world).2)
  /\ unique_ids
       (feeds (createDiscordWebhookConnection env "connection-2" "manager" "feed-1"
                 "guild-1" "second" (webhookInput "webhook-1") world).2).
Proof.
  destruct (operations_keep_ids_unique env "connection-2" "feed-1" "second"
              "channel-1b" "manager" "guild-1" (patch None (Some "renamed") None)
              (webhookInput "webhook-1") world world_unique_ids)
    as (_ & Hchannel & Hwebhook).
  destruct (operations_keep_ids_unique env "connection-1" "feed-1" "second"
              "channel-1b" "manager" "guild-1" (patch None (Some "renamed") None)
              (webhookInput "webhook-1") world world_unique_ids)
    as (Hupdate & _).
  split; [exact Hupdate|]. split.
  - apply Hchannel. intros feed Hfeed. unfold world in Hfeed; simpl in Hfeed.
    apply lookup_singleton_Some in Hfeed as [_ <-].
    intros Hin. apply list_elem_of_singleton in Hin. discriminate Hin.
  - apply Hwebhook. intros feed Hfeed. unfold world in Hfeed; simpl in Hfeed.
    apply lookup_singleton_Some in Hfeed as [_ <-].
    intros Hin. by apply elem_of_nil in Hin.
Defined.

Lemma create_then_update_witness :
  let created :=
    createDiscordChannelConnection env "connection-2" "feed-1" "second" "channel-1b"
      "manager" "guild-1" world in
  exists c,
    (updateDiscordChannelConnection env "feed-1" "connection-2"
       (patch None (Some "renamed") None) created.2).1 = inr c
    /\ FeedConnections.name c = "renamed"
    /\ destination c = Some "channel-1b".
Proof.
  intros created.
  destruct (create_then_update env "connection-2" "feed-1" "second" "channel-1b"
              "manager" "guild-1" (patch None (Some "renamed") None) "renamed"
              world feed1)
    as (c & Hres & _ & Hname & Hdest & _).
  - exact verified_channel_1b.
  - reflexivity.
  - intros Hin. apply list_elem_of_singleton in Hin. discriminate Hin.
  - reflexivity.
  - reflexivity.
  - discriminate.
  - exists c. by repeat split.
Defined.

End FeedConnectionsService_further_scenario.

(** * Further properties of [DeliveryRecordService] *)
Section DeliveryRecordService_further.

Import DeliveryRecords.
Local Open Scope Z_scope.

Lemma run_snoc (start : Z) (events : list Event) (e : Event) :
  run start (events ++ [e]) = step (run start events) e.
Proof. unfold run. by rewrite fold_left_app. Qed.

(** The record that [store] appends. *)
Lemma store_records (feedId : string) (articleState : ArticleDeliveryState) (db : Db) :
  exists r,
    records (store feedId articleState db) = records db ++ [r]
    /\ now (store feedId articleState db) = now db
    /\ feed_id r = feedId
    /\ status r = state_status articleState
    /\ created_at r = now db
    /\ error_code r
       = match articleState with
         | StateFailed errorCode _ | StateRejected errorCode _ => Some errorCode
         | _ => None
         end
    /\ internal_message r
       = match articleState with
         | StateFailed _ message | StateRejected _ message => Some message
         | _ => None
         end.
Proof. destruct articleState; eexists; by repeat split. Qed.

(** X13: in every table that [store] has filled, a record carries an error
    code and an internal message exactly when its status is [Failed] or
    [Rejected]; a [Sent] record, and a record of any other status, carries
    neither. *)
Theorem store_error_fields_only_on_failures
    (start : Z) (events : list Event) (r : DeliveryRecord) :
  r ∈ records (run start events) ->
  (is_Some (error_code r) <-> status r = Failed \/ status r = Rejected)
  /\ (is_Some (internal_message r) <-> status r = Failed \/ status r = Rejected).
Proof.
  induction events as [|e events IH] using rev_ind.
  - intros Hin. by apply elem_of_nil in Hin.
  - rewrite run_snoc. destruct e as [feedId st|ms]; cbn [step]; [|exact IH].
    destruct (store_records feedId st (run start events))
      as (r' & -> & _ & _ & Hstatus & _ & Hcode & Hmsg).
    intros [Hin| ->%list_elem_of_singleton]%elem_of_app; [by apply IH|].
    rewrite Hstatus, Hcode, Hmsg.
    destruct st; simpl; split; split;
      try (intros [? [=]]); try (intros [[=]|[=]]); eauto.
Qed.

Lemma filter_length_le {A} (p q : A -> bool) (l : list A) :
  Forall (fun x => p x = true -> q x = true) l ->
  (length (List.filter p l) <= length (List.filter q l))%nat.
Proof.
  induction 1 as [|x l Hx _ IH]; simpl; [done|].
  destruct (p x) eqn:Hp.
  - rewrite Hx by done. simpl. lia.
  - destruct (q x); simpl; lia.
Qed.

(** X14: the count grows with the window: every delivery counted for a
    window is counted for every longer one. *)
Theorem countDeliveriesInPastTimeframe_monotone
    (db : Db) (feedId : string) (shorter longer : Z) :
  shorter <= longer ->
  (countDeliveriesInPastTimeframe feedId shorter db
   <= countDeliveriesInPastTimeframe feedId longer db)%nat.
Proof.
  intros Hle. unfold countDeliveriesInPastTimeframe.
  apply filter_length_le, Forall_forall. intros r _.
  unfold matches, cutoff. intros [[-> ->]%andb_prop Hc%Z.leb_le]%andb_prop.
  simpl. apply Z.leb_le. lia.
Qed.

(** X15: recording a delivery raises the count of its feed by one when its
    status is [Sent] or [Rejected] and the window is not negative, and
    leaves every count as it was otherwise: a [Failed] delivery, a delivery
    of another status and a delivery of another feed do not count. *)
Theorem store_then_count
    (db : Db) (storedFor : string) (articleState : ArticleDeliveryState)
    (feedId : string) (secondsInPast : Z) :
  countDeliveriesInPastTimeframe feedId secondsInPast
    (store storedFor articleState db)
  = (countDeliveriesInPastTimeframe feedId secondsInPast db
     + if String.eqb storedFor feedId
          && status_in_Sent_Rejected (state_status articleState)
          && (0 <=? secondsInPast)%Z
       then 1 else 0)%nat.
Proof.
  unfold countDeliveriesInPastTimeframe.
  destruct (store_records storedFor articleState db)
    as (r & -> & Hnow & Hfeed & Hstatus & Hat & _).
  unfold cutoff. rewrite Hnow.
  rewrite List.filter_app, length_app. f_equal. simpl.
  unfold matches. rewrite Hfeed, Hstatus, Hat.
  replace (now db - secondsInPast * 1000 <=? now db) with (0 <=? secondsInPast)
    by (destruct (Z.leb_spec 0 secondsInPast),
          (Z.leb_spec (now db - secondsInPast * 1000) (now db)); lia).
  by destruct (_ && _ && _).
Qed.

(** X16: the passing of time never raises a count. *)
Theorem elapse_never_raises_count
    (db : Db) (milliseconds : Z) (feedId : string) (secondsInPast : Z) :
  (countDeliveriesInPastTimeframe feedId secondsInPast (step db (Elapse milliseconds))
   <= countDeliveriesInPastTimeframe feedId secondsInPast db)%nat.
Proof.
  unfold countDeliveriesInPastTimeframe. simpl.
  apply filter_length_le, Forall_forall. intros r _.
  unfold matches, cutoff; simpl.
  intros [[-> ->]%andb_prop Hc%Z.leb_le]%andb_prop.
  simpl. apply Z.leb_le. lia.
Qed.

Lemma filter_length_none {A} (p : A -> bool) (l : list A) :
  Forall (fun x => p x = false) l -> length (List.filter p l) = 0%nat.
Proof. induction 1 as [|x l Hx _ IH]; simpl; [done|]. by rewrite Hx. Qed.

(** X17: deliveries expire.  On a table that holds no record dated after
    the clock, once more time has passed than the window is long, the count
    is zero; and the count for a negative window is zero at any time. *)
Theorem counts_expire
    (db : Db) (milliseconds : Z) (feedId : string) (secondsInPast : Z) :
  none_from_the_future db ->
  (secondsInPast * 1000 < milliseconds ->
   countDeliveriesInPastTimeframe feedId secondsInPast (step db (Elapse milliseconds))
   = 0%nat)
  /\ (secondsInPast < 0 ->
      countDeliveriesInPastTimeframe feedId secondsInPast db = 0%nat).
Proof.
  intros Hdb. split; intros Hlt; unfold countDeliveriesInPastTimeframe;
    apply filter_length_none; (eapply Forall_impl; [exact Hdb|]);
    intros r Hr; simpl in *; unfold matches, cutoff; simpl;
    apply andb_false_iff; right; apply Z.leb_gt; lia.
Qed.

(** X18: the table is append-only: whatever happens later, the records that
    were in the table are still there, unchanged and in the same order, at
    the head of the table. *)
Theorem records_are_append_only
    (start : Z) (earlier later : list Event) :
  records (run start earlier) `prefix_of` records (run start (earlier ++ later)).
Proof.
  induction later as [|e later IH] using rev_ind.
  - by rewrite app_nil_r.
  - rewrite app_assoc, run_snoc. etrans; [exact IH|].
    destruct e as [feedId st|ms]; cbn [step]; [|done].
    destruct (store_records feedId st (run start (earlier ++ later))) as (r & -> & _).
    by apply prefix_app_r.
Qed.

End DeliveryRecordService_further.

(** * Properties of [FeedsController.updateFeed] *)
Section FeedsController_properties.

Import FeedsController.

Context {S R Dto : Type}.
Variable svc : Services S R Dto.

(** X20: a request that names a webhook is refused before anything is
    written.  On a server without the webhook benefit it is answered with
    [BadRequestException "This server does not have webhooks enabled"]
    and the webhook is not even looked up; when the webhook is not found
    it is answered with [BadRequestException "Webhook not found"].  In
    both cases [updateOne] is never called and the database is as it
    was, whatever text the request carries. *)
Theorem updateFeed_refuses_unusable_webhook
    (feed : DetailedFeed) (input : UpdateFeedInputDto) (st : S) (id : string) :
  webhookId input = Some id -> id <> "" ->
  (serverCanUseWebhooks svc (guild feed) = inr false ->
   updateFeed svc feed input st
   = {| answer := inl (BadRequestException "This server does not have webhooks enabled");
        database := st;
        calls := [CallServerCanUseWebhooks (guild feed)] |})
  /\ (serverCanUseWebhooks svc (guild feed) = inr true ->
      getWebhook svc id = inr false ->
      updateFeed svc feed input st
      = {| answer := inl (BadRequestException "Webhook not found");
           database := st;
           calls := [CallServerCanUseWebhooks (guild feed); CallGetWebhook id] |}).
Proof.
  intros Hid Hne. unfold updateFeed, names_webhook. rewrite Hid. simpl.
  apply String.eqb_neq in Hne. rewrite Hne. simpl. split.
  - by intros ->.
  - by intros -> ->.
Qed.

(** X21: a request that names no webhook, or names the empty one, is
    checked against nothing: neither the webhook benefit of the server nor
    any webhook is looked up, and the one call made is [updateOne] with the
    request's text and webhook id.  So changing the text and removing the
    webhook stay possible on a server without the webhook benefit. *)
Theorem updateFeed_without_webhook_skips_checks
    (feed : DetailedFeed) (input : UpdateFeedInputDto) (st : S) :
  webhookId input = None \/ webhookId input = Some "" ->
  let outcome := updateFeed svc feed input st in
  let patch :=
    {| FeedsService.patch_text := text input;
       FeedsService.patch_webhook :=
         Some {| FeedsService.webhook_id := webhookId input |} |} in
  calls outcome = [CallUpdateOne (_id feed) patch]
  /\ database outcome = (updateOne svc (_id feed) patch st).2
  /\ answer outcome
     = match (updateOne svc (_id feed) patch st).1 with
       | inl err => inl err
       | inr updated => inr (fromEntity svc updated)
       end.
Proof.
  intros Hid outcome patch. subst outcome.
  assert (names_webhook input = None) as Hnone
    by (unfold names_webhook; by destruct Hid as [-> | ->]).
  unfold updateFeed. rewrite Hnone. unfold update_and_answer, patch_of. fold patch.
  by destruct (updateOne svc (_id feed) patch st) as [[err|updated] st'].
Qed.

(** X22: [updateFeed] writes through [updateOne] only, once and as its
    last call, for the resolved feed and with the request's text and
    webhook id; and when the request names a webhook, [updateOne] is
    reached only if the server has the webhook benefit and the webhook was
    found.  When [updateOne] is not called, the database is as it was. *)
Theorem updateFeed_updates_only_after_checks
    (feed : DetailedFeed) (input : UpdateFeedInputDto) (st : S) :
  let outcome := updateFeed svc feed input st in
  let writes (c : Call) := exists feedId patch, c = CallUpdateOne feedId patch in
  (Exists writes (calls outcome) ->
   (exists checks,
      calls outcome = checks ++ [CallUpdateOne (_id feed) (patch_of input)]
      /\ Forall (fun c => ~ writes c) checks)
   /\ (forall id, webhookId input = Some id -> id <> "" ->
                  serverCanUseWebhooks svc (guild feed) = inr true
                  /\ getWebhook svc id = inr true))
  /\ (Forall (fun c => ~ writes c) (calls outcome) -> database outcome = st).
Proof.
  intros outcome writes. subst outcome. unfold updateFeed, names_webhook.
  assert (Hwrite : writes (CallUpdateOne (_id feed) (patch_of input)))
    by (by eexists _, _).
  assert (Htail : forall made,
            let outcome := update_and_answer svc feed input st made in
            calls outcome = made ++ [CallUpdateOne (_id feed) (patch_of input)]).
  { intros made. unfold update_and_answer.
    by destruct (updateOne svc (_id feed) (patch_of input) st). }
  assert (Hdone : forall made (P : Prop),
            Forall (fun c => ~ writes c) made -> P ->
            let outcome := update_and_answer svc feed input st made in
            (Exists writes (calls outcome) ->
             (exists checks,
                calls outcome = checks ++ [CallUpdateOne (_id feed) (patch_of input)]
                /\ Forall (fun c => ~ writes c) checks) /\ P)
            /\ (Forall (fun c => ~ writes c) (calls outcome) -> database outcome = st)).
  { intros made P Hmade HP outcome. subst outcome. rewrite Htail. split.
    - intros _. split; [by exists made|done].
    - intros [_ Hnot%Forall_inv]%Forall_app. exfalso. by apply Hnot. }
  assert (Hnone : forall (made : list Call) (P : Prop),
            Forall (fun c => ~ writes c) made ->
            (Exists writes made -> P)
            /\ (Forall (fun c => ~ writes c) made -> st = st)).
  { intros made P Hmade. split; [|done].
    intros Hex. apply Exists_exists in Hex as (c & Hc & Hw).
    rewrite Forall_forall in Hmade. by apply Hmade in Hc. }
  assert (Hasked : Forall (fun c => ~ writes c) [CallServerCanUseWebhooks (guild feed)]).
  { apply Forall_singleton. by intros (? & ? & [=]). }
  assert (Hlooked : forall id,
            Forall (fun c => ~ writes c)
              ([CallServerCanUseWebhooks (guild feed)] ++ [CallGetWebhook id])).
  { intros id. apply Forall_app. split; [done|].
    apply Forall_singleton. by intros (? & ? & [=]). }
  destruct (webhookId input) as [id|] eqn:Hid; simpl.
  - destruct (String.eqb_spec id "") as [->|Hne]; simpl.
    + apply Hdone; [by apply Forall_nil|]. by intros id [= <-].
    + destruct (serverCanUseWebhooks svc (guild feed)) as [err|[|]] eqn:Hserver;
        simpl; try exact (Hnone _ _ Hasked).
      destruct (getWebhook svc id) as [err|[|]] eqn:Hfound; simpl;
        try exact (Hnone _ _ (Hlooked id)).
      apply Hdone; [apply Hlooked|]. by intros ? [= <-] _.
  - apply Hdone; [by apply Forall_nil|]. by intros id [=].
Qed.

End FeedsController_properties.

Lemma updateFeed_refuses_unusable_webhook_witness :
  let c := Scenario.collections Scenario.started 2 in
  let input webhook := Scenario.request (Some "new-text") (Some webhook) in
  FeedsController.updateFeed (Scenario.feedServices false) Scenario.resolvedFeed
    (input "webhook-1") c
  = {| FeedsController.answer :=
         inl (FeedsController.BadRequestException
                "This server does not have webhooks enabled");
       FeedsController.database := c;
       FeedsController.calls := [FeedsController.CallServerCanUseWebhooks "guild-1"] |}
  /\ FeedsController.updateFeed (Scenario.feedServices true) Scenario.resolvedFeed
       (input "webhook-0") c
     = {| FeedsController.answer :=
            inl (FeedsController.BadRequestException "Webhook not found");
          FeedsController.database := c;
          FeedsController.calls :=
            [FeedsController.CallServerCanUseWebhooks "guild-1";
             FeedsController.CallGetWebhook "webhook-0"] |}.
Proof.
  intros c input. split.
  - apply (proj1 (updateFeed_refuses_unusable_webhook (Scenario.feedServices false)
                    Scenario.resolvedFeed (input "webhook-1") c "webhook-1"
                    eq_refl ltac:(discriminate))).
    reflexivity.
  - apply (proj2 (updateFeed_refuses_unusable_webhook (Scenario.feedServices true)
                    Scenario.resolvedFeed (input "webhook-0") c "webhook-0"
                    eq_refl ltac:(discriminate)));
      reflexivity.
Defined.

Lemma updateFeed_without_webhook_skips_checks_witness :
  let c := Scenario.collections Scenario.started 2 in
  let outcome :=
    FeedsController.updateFeed (Scenario.feedServices false) Scenario.resolvedFeed
      (Scenario.request None (Some "")) c in
  length (FeedsController.calls outcome) = 1%nat
  /\ FeedsService.webhook
       <$> (FeedsService.feeds (FeedsController.database outcome) !! "feed-1")
     = Some None.
Proof.
  intros c outcome.
  destruct (updateFeed_without_webhook_skips_checks (Scenario.feedServices false)
              Scenario.resolvedFeed (Scenario.request None (Some "")) c
              (or_intror eq_refl)) as (Hcalls & Hdb & _).
  fold outcome in Hcalls, Hdb. split.
  - by rewrite Hcalls.
  - rewrite Hdb. reflexivity.
Defined.

Lemma updateFeed_updates_only_after_checks_witness :
  let c := Scenario.collections Scenario.started 2 in
  let input := Scenario.request (Some "new-text") (Some "webhook-1") in
  let outcome :=
    FeedsController.updateFeed (Scenario.feedServices true) Scenario.resolvedFeed
      input c in
  exists checks,
    FeedsController.calls outcome
    = checks ++ [FeedsController.CallUpdateOne "feed-1" (FeedsController.patch_of input)]
    /\ length checks = 2%nat.
Proof.
  intros c input outcome.
  destruct (updateFeed_updates_only_after_checks (Scenario.feedServices true)
              Scenario.resolvedFeed input c) as [Hwrites _].
  destruct Hwrites as [(checks & Hcalls & _) _].
  - apply Exists_exists. eexists. split; [|by eexists _, _].
    apply list_elem_of_In. right; right; left. reflexivity.
  - exists checks. split; [exact Hcalls|].
    fold outcome in Hcalls.
    assert (length (FeedsController.calls outcome) = 3%nat) as Hlen by reflexivity.
    rewrite Hcalls, length_app in Hlen. simpl in Hlen. lia.
Defined.

(** * Properties of [usePaddleCheckout] *)
Section PaddleCheckout_properties.

Import PaddleCheckout.

Lemma run_snoc_hook (cfg : Config) (events : list Event) (e : Event) :
  run cfg (events ++ [e]) = step cfg (run cfg events) e.
Proof. unfold run. by rewrite fold_left_app. Qed.

(** X23: with a seller id that is not a number, the hook never asks for a
    Paddle instance, never holds one, and never opens a checkout, whatever
    is done with it. *)
Theorem no_checkout_without_seller_id (cfg : Config) (events : list Event) :
  paddleSellerId cfg = None ->
  initialized (run cfg events) = []
  /\ paddle (run cfg events) = None
  /\ opened (run cfg events) = [].
Proof.
  intros Hnan.
  enough (run cfg events = mounted) as -> by done.
  induction events as [|e events IH] using rev_ind; [done|].
  rewrite run_snoc_hook, IH. destruct e as [|inst|user priceId]; simpl.
  - unfold effect. by rewrite Hnan.
  - done.
  - unfold openCheckout. destruct user as [u|]; [|done].
    destruct (email u) as [address|]; [|done].
    by destruct (negb _).
Qed.

Lemma openCheckout_paddle (user : option User) (priceId : string) (h : Hook) :
  paddle (openCheckout user priceId h) = paddle h.
Proof.
  unfold openCheckout. destruct user as [u|]; [|done].
  destruct (email u) as [address|]; [|done].
  destruct (negb _); [done|]. by destruct (paddle h) eqn:Hp.
Qed.

(** X24: every checkout that the hook opens goes to an instance that one of
    its initialisations resolved with, for a user with a non-empty e-mail
    address, with exactly one item; in particular none is opened before an
    initialisation has resolved with an instance. *)
Theorem checkouts_need_instance_and_email (cfg : Config) (events : list Event) :
  (forall p, paddle (run cfg events) = Some p -> p ∈ delivered events)
  /\ Forall (fun o => instance o ∈ delivered events
                      /\ customer_email o <> ""
                      /\ length (items o) = 1%nat)
       (opened (run cfg events)).
Proof.
  induction events as [|e events [IHp IHo]] using rev_ind.
  - split; [done|]. apply Forall_nil_2.
  - rewrite run_snoc_hook. unfold delivered. rewrite omap_app. fold (delivered events).
    assert (Hmono : Forall (fun o => instance o ∈ delivered events
                                    /\ customer_email o <> ""
                                    /\ length (items o) = 1%nat)
                      (opened (run cfg events)) ->
                    forall more,
                    Forall (fun o => instance o ∈ delivered events ++ more
                                    /\ customer_email o <> ""
                                    /\ length (items o) = 1%nat)
                      (opened (run cfg events))).
    { intros H more. eapply Forall_impl; [exact H|].
      intros o (? & ? & ?). split; [|done]. apply elem_of_app. by left. }
    destruct e as [|inst|user priceId]; simpl.
    + rewrite app_nil_r. unfold effect.
      destruct (paddleSellerId cfg); by split.
    + unfold resolved. destruct (pending (run cfg events)); simpl.
      * split; [|by apply Hmono]. intros p Hp. apply elem_of_app. left. by apply IHp.
      * split; [|by apply Hmono]. intros p Hp. apply elem_of_app.
        destruct inst as [q|]; [|left; by apply IHp].
        injection Hp as ->. right. by left.
    + rewrite app_nil_r. split.
      * rewrite openCheckout_paddle. exact IHp.
      * unfold openCheckout.
        destruct user as [u|]; [|done].
        destruct (email u) as [address|]; [|done].
        unfold Js.truthy.
        destruct (String.eqb address "") eqn:Hne; simpl; [done|].
        apply String.eqb_neq in Hne.
        destruct (paddle (run cfg events)) as [p|] eqn:Hp; simpl; [|done].
        apply Forall_app. split; [done|].
        apply Forall_singleton. simpl. split; [by apply IHp|]. by split.
Qed.

End PaddleCheckout_properties.

Lemma no_checkout_without_seller_id_witness :
  let cfg := {| PaddleCheckout.paddleSellerId := None; PaddleCheckout.PROD := true |} in
  let buyer :=
    {| PaddleCheckout.id := "user-1"; PaddleCheckout.email := Some "a@example.com" |} in
  PaddleCheckout.opened
    (PaddleCheckout.run cfg
       [PaddleCheckout.Effect; PaddleCheckout.Resolved (Some 7%nat);
        PaddleCheckout.OpenCheckout (Some buyer) "price-1"])
  = [].
Proof.
  intros cfg buyer.
  apply (no_checkout_without_seller_id cfg). reflexivity.
Defined.

Lemma store_error_fields_only_on_failures_witness :
  let db := DeliveryRecords.run Scenario.started Scenario.deliveries in
  exists r,
    DeliveryRecords.records db !! 1%nat = Some r
    /\ DeliveryRecords.status r = DeliveryRecords.Rejected
    /\ is_Some (DeliveryRecords.error_code r)
    /\ is_Some (DeliveryRecords.internal_message r).
Proof.
  intros db. eexists. split; [reflexivity|]. split; [reflexivity|].
  match goal with
  | |- is_Some (DeliveryRecords.error_code ?r) /\ _ =>
      destruct (store_error_fields_only_on_failures Scenario.started
                  Scenario.deliveries r) as [Hcode Hmsg]
  end.
  - apply (list_elem_of_lookup_2 _ 1%nat). reflexivity.
  - split; [apply Hcode|apply Hmsg]; by right.
Defined.

Lemma countDeliveriesInPastTimeframe_monotone_witness :
  let db := DeliveryRecords.run Scenario.started Scenario.deliveries in
  (DeliveryRecords.countDeliveriesInPastTimeframe "feed-1" 15 db
   <= DeliveryRecords.countDeliveriesInPastTimeframe "feed-1" 60 db)%nat.
Proof.
  intros db.
  apply (countDeliveriesInPastTimeframe_monotone db "feed-1" 15 60). lia.
Defined.

Lemma counts_expire_witness :
  let db := DeliveryRecords.run Scenario.started Scenario.deliveries in
  DeliveryRecords.countDeliveriesInPastTimeframe "feed-1" 60
    (DeliveryRecords.step db (DeliveryRecords.Elapse 60001)) = 0%nat
  /\ DeliveryRecords.countDeliveriesInPastTimeframe "feed-1" (-1) db = 0%nat.
Proof.
  intros db.
  destruct (counts_expire db 60001 "feed-1" 60
              (run_none_from_the_future Scenario.started Scenario.deliveries))
    as [Hexpired _].
  destruct (counts_expire db 0 "feed-1" (-1)
              (run_none_from_the_future Scenario.started Scenario.deliveries))
    as [_ Hnegative].
  split; [apply Hexpired | apply Hnegative]; lia.
Defined.
